(** * JK BMS Bluetooth protocol engine: frame layer, reassembly, correlator

    Shallow embedding of [src/jikong.py] and [src/bt.py].

    - Bytes ([bytes], [bytearray]) are lists of integers in [0, 256).
    - The named-future pool ([FuturesPool._futures]) and the response
      table ([JKBt._resp_table]) are finite maps.
    - Python code that mutates [self] and may raise is a state-and-error
      computation: the state survives a raised exception, exactly as the
      mutated object does in Python. *)

From Stdlib Require Import ZArith QArith.
From stdpp Require Import gmap strings list fin_maps.

Set Warnings "-register-all".

Local Open Scope Z_scope.

(** ** Names, byte strings, exceptions *)

(** Atomic future names: [Union[str, int]]. *)
Abbreviation key := (Z + string)%type.

(** [bytes] and [bytearray] values. *)
Abbreviation bytes := (list Z).

Inductive assert_msg : Type :=
| ValTooLong (value : list Z)      (* "val %s too long" *)
| AlreadyWaitingFor (name : key).  (* "already waiting for %s" *)

Inductive exn : Type :=
| AssertionError (msg : assert_msg)
| ValueError
| IndexError
| TypeError
| InvalidStateError
| NotDiscovered (discovered : list string)
| TransportError (code : nat).     (* whatever the BLE client raises *)

(** Exceptions short-circuit the rest of a function body. *)
Definition ebind {A B} (r : exn + A) (k : A -> exn + B) : exn + B :=
  match r with inl e => inl e | inr a => k a end.

Declare Scope exn_scope.
Delimit Scope exn_scope with exn.
Notation "x <-! c ; k" := (ebind c (fun x => k))
  (at level 100, c at next level, right associativity) : exn_scope.

(** ** Python sequence primitives *)

Definition is_byte (b : Z) : bool := (0 <=? b) && (b <? 256).

(** [bytes(l)] for a list of ints: [ValueError] outside [range(256)]. *)
Definition to_bytes (l : list Z) : exn + bytes :=
  if forallb is_byte l then inr l else inl ValueError.

(** [a == b] on byte strings. *)
Fixpoint bytes_eqb (a b : bytes) : bool :=
  match a, b with
  | [], [] => true
  | x :: a', y :: b' => (x =? y) && bytes_eqb a' b'
  | _, _ => false
  end.

(** [buf.startswith(sub)], the test [index] performs at each offset. *)
Fixpoint starts_with (sub buf : bytes) : bool :=
  match sub, buf with
  | [], _ => true
  | x :: sub', y :: buf' => (x =? y) && starts_with sub' buf'
  | _ :: _, [] => false
  end.

(** [buf.index(sub)]: offset of the first occurrence, [None] where Python
    raises [ValueError]; [sub in buf] holds exactly when it is [Some _]. *)
Fixpoint index (sub buf : bytes) : option nat :=
  if starts_with sub buf then Some 0%nat
  else match buf with
       | [] => None
       | _ :: buf' => S <$> index sub buf'
       end.

Definition contains (sub buf : bytes) : bool :=
  match index sub buf with Some _ => true | None => false end.

(** ** jikong.py: checksum and outbound frame *)

Definition calc_crc (message_bytes : bytes) : Z :=
  Z.land (foldr Z.add 0 message_bytes) 255.

Definition _jk_command (address : Z) (value : list Z) : exn + bytes :=
  (let n := length value in
   if negb (n <=? 13)%nat then inl (AssertionError (ValTooLong value)) else
   frame <-! to_bytes [170; 85; 144; 235; address; Z.of_nat n] ;
   payload <-! to_bytes value ;
   let frame := frame ++ payload in
   padding <-! to_bytes (repeat 0 (13 - n)%nat) ;
   let frame := frame ++ padding in
   crc <-! to_bytes [calc_crc frame] ;
   inr (frame ++ crc))%exn.

Definition MIN_RESPONSE_SIZE : nat := 300.
Definition MAX_RESPONSE_SIZE : nat := 320.

(** ** bt.py: FuturesPool *)

(** State of an [asyncio.Future]. *)
Inductive future : Type :=
| Pending
| Done (value : bytes)
| Cancelled.

(** [NameType = Union[str, int, Tuple[...]]]. *)
Inductive name : Type :=
| NAtom (k : key)
| NTuple (l : list name).

(** [FuturesPool._futures]; a method is a function from the pool before the
    call to the pool after it and the value returned or exception raised. *)
Abbreviation pool := (gmap key future).

(** [acquire] returns [FutureContext(name, pool=self)], identified here by
    its [name]. A tuple is acquired member by member, left to right; the
    first failing member ends the generator. *)
Fixpoint acquire (n : name) (p : pool) : pool * (exn + name) :=
  match n with
  | NTuple l =>
      let fix each (l : list name) (p : pool) : pool * (exn + unit) :=
        match l with
        | [] => (p, inr tt)
        | x :: l' =>
            match acquire x p with
            | (p', inr _) => each l' p'
            | (p', inl e) => (p', inl e)
            end
        end in
      match each l p with
      | (p', inr _) => (p', inr n)
      | (p', inl e) => (p', inl e)
      end
  | NAtom k =>
      match p !! k with
      | Some _ => (p, inl (AssertionError (AlreadyWaitingFor k)))
      | None => (<[k := Pending]> p, inr n)
      end
  end.

(** [Future.set_result] raises [InvalidStateError] unless the future is
    pending. A future object is always truthy, so [if fut:] only tests
    that [get] found an entry; a tuple is never a key of [_futures]. *)
Definition set_result (n : name) (value : bytes) (p : pool) : pool * (exn + unit) :=
  match n with
  | NTuple _ => (p, inr tt)
  | NAtom k =>
      match p !! k with
      | None => (p, inr tt)
      | Some Pending => (<[k := Done value]> p, inr tt)
      | Some (Done _) | Some Cancelled => (p, inl InvalidStateError)
      end
  end.

(** Every future is cancelled, then the dict is emptied. *)
Definition clear (p : pool) : pool := ∅.

Fixpoint remove (n : name) (p : pool) : pool :=
  match n with
  | NTuple l =>
      (fix each (l : list name) (p : pool) : pool :=
         match l with
         | [] => p
         | x :: l' => each l' (remove x p)
         end) l p
  | NAtom k => delete k p
  end.

(** ** jikong.py: JKBt, inbound reassembly *)

(** Calls the handler makes, in order: the observable trace of one
    session. [CrcCheck buf r]: [_buffer_crc_check] ran on buffer [buf];
    [r] is its verdict, [None] when it raised. *)
Inductive call : Type :=
| CrcCheck (buf : bytes) (verdict : option bool)
| DecodeMsg (buf : bytes)
| Callback (cb : nat) (buf : bytes).

Record JKBt : Type := mkJKBt {
  _buffer : bytes;
  _resp_table : gmap Z bytes;
  _fetch_futures : gmap key future;
  _callbacks : gmap Z (list nat);
  calls : list call;
}.

Definition set_buffer (b : bytes) (s : JKBt) : JKBt :=
  mkJKBt b (_resp_table s) (_fetch_futures s) (_callbacks s) (calls s).
Definition set_resp_table (t : gmap Z bytes) (s : JKBt) : JKBt :=
  mkJKBt (_buffer s) t (_fetch_futures s) (_callbacks s) (calls s).
Definition set_fetch_futures (p : gmap key future) (s : JKBt) : JKBt :=
  mkJKBt (_buffer s) (_resp_table s) p (_callbacks s) (calls s).
Definition record (c : list call) (s : JKBt) : JKBt :=
  mkJKBt (_buffer s) (_resp_table s) (_fetch_futures s) (_callbacks s) (calls s ++ c).

(** A method of [JKBt]: state before, state after, result or exception. *)
Definition M (A : Type) : Type := JKBt -> JKBt * (exn + A).

Definition ret {A} (a : A) : M A := fun s => (s, inr a).
Definition raise {A} (e : exn) : M A := fun s => (s, inl e).
Definition bind {A B} (m : M A) (k : A -> M B) : M B :=
  fun s => match m s with
           | (s', inr a) => k a s'
           | (s', inl e) => (s', inl e)
           end.
Definition get {A} (f : JKBt -> A) : M A := fun s => (s, inr (f s)).
Definition modify (f : JKBt -> JKBt) : M unit := fun s => (f s, inr tt).

Declare Scope jk_scope.
Delimit Scope jk_scope with jk.
Notation "x <- c ;; k" := (bind c (fun x => k))
  (at level 100, c at next level, right associativity) : jk_scope.
Notation "c ;; k" := (bind c (fun _ => k))
  (at level 100, right associativity) : jk_scope.

Definition HEADER : bytes := [85; 170; 235; 144].

Definition _buffer_crc_check : M bool :=
  fun s =>
    let buf := _buffer s in
    let crc_comp := calc_crc (take (MIN_RESPONSE_SIZE - 1) buf) in
    match buf !! (MIN_RESPONSE_SIZE - 1)%nat with
    | None => (record [CrcCheck buf None] s, inl IndexError)
    | Some crc_expected =>
        let ok := crc_comp =? crc_expected in
        (record [CrcCheck buf (Some ok)] s, inr ok)
    end.

(** [FuturesPool.set_result] on [self._fetch_futures]. *)
Definition fetch_futures_set_result (n : name) (value : bytes) : M unit :=
  fun s =>
    match set_result n value (_fetch_futures s) with
    | (p, r) => (set_fetch_futures p s, r)
    end.

Definition _decode_msg (buf : bytes) : M unit :=
  (modify (record [DecodeMsg buf]) ;;
   match buf !! 4%nat with
   | None => raise IndexError
   | Some resp_type =>
       modify (fun s => set_resp_table (<[resp_type := buf]> (_resp_table s)) s) ;;
       cur <- get _buffer ;;
       fetch_futures_set_result (NAtom (inl resp_type)) cur ;;
       callbacks <- get (fun s => _callbacks s !! resp_type) ;;
       match callbacks with
       | Some cbs => modify (record (map (fun cb => Callback cb buf) cbs))
       | None => ret tt
       end
   end)%jk.

(** The logger calls, among them the warning for a buffer longer than
    [MAX_RESPONSE_SIZE], change neither the state nor the control flow and
    are left out. [index] cannot fail where it is called: [contains] has
    just answered yes. *)
Definition _notification_handler (data : bytes) : M unit :=
  ((if bytes_eqb (take 4 data) HEADER
    then modify (set_buffer [])
    else ret tt) ;;
   modify (fun s => set_buffer (_buffer s ++ data) s) ;;
   len <- get (fun s => length (_buffer s)) ;;
   if (MIN_RESPONSE_SIZE <=? len)%nat then
     crc_ok <- _buffer_crc_check ;;
     buf <- get _buffer ;;
     crc_ok <- (if negb crc_ok && contains HEADER buf then
                  match index HEADER buf with
                  | None => raise ValueError
                  | Some idx =>
                      modify (set_buffer (drop idx buf)) ;;
                      _buffer_crc_check
                  end
                else ret crc_ok) ;;
     (if negb crc_ok then ret tt
      else buf <- get _buffer ;; _decode_msg buf) ;;
     modify (set_buffer [])
   else ret tt)%jk.

(** The transport delivers fragments one notification at a time; every
    delivery is a separate call of the handler, so an exception raised by
    one call does not stop the next delivery. *)
Fixpoint feed (fragments : list bytes) (s : JKBt) : JKBt * list (exn + unit) :=
  match fragments with
  | [] => (s, [])
  | data :: rest =>
      match _notification_handler data s with
      | (s', r) =>
          match feed rest s' with
          | (s'', rs) => (s'', r :: rs)
          end
      end
  end.

(** The buffers handed to [_decode_msg], in order: the accepted messages. *)
Definition accepted (cs : list call) : list bytes :=
  omap (fun c => match c with DecodeMsg buf => Some buf | _ => None end) cs.

Definition crc_checks (cs : list call) : list (bytes * option bool) :=
  omap (fun c => match c with CrcCheck buf v => Some (buf, v) | _ => None end) cs.


(** ** bt.py: BtBms.start_notify *)

(** [char_specifier] is one identifier or a list of them. *)
Inductive char_specifier : Type :=
| Single (cs : key)
| Several (l : list key).

Section StartNotify.

(** [self.client.start_notify(cs, callback)]: what the BLE client answers
    to the [i]-th call (counted from 0) when asked for characteristic [cs]. *)
Variable client_start_notify : nat -> key -> exn + unit.

Definition candidates (spec : char_specifier) : list key :=
  match spec with
  | Single cs => [cs]
  | Several l => l
  end.

(** The [for] loop. [i] counts the client calls made so far, [exception]
    is the local variable of that name, [tried] the identifiers passed to
    the client so far. After the loop [enumerate_services] only logs, and
    [raise None] is a [TypeError]. *)
Fixpoint start_notify_loop (l : list key) (i : nat) (exception : option exn)
    (tried : list key) : list key * (exn + key) :=
  match l with
  | [] =>
      (tried, inl (match exception with Some e => e | None => TypeError end))
  | cs :: l' =>
      match client_start_notify i cs with
      | inr _ => (tried ++ [cs], inr cs)
      | inl e => start_notify_loop l' (S i) (Some e) (tried ++ [cs])
      end
  end.

Definition start_notify (spec : char_specifier) : list key * (exn + key) :=
  start_notify_loop (candidates spec) 0 None [].

End StartNotify.

(** ** bt.py: BtBms._connect_with_scanner *)

(** Calls made on the scanner, the client and the event loop. Delays and
    timeouts are the exact rationals denoted by the Python expressions. *)
Inductive io : Type :=
| ScannerStart
| ScannerStop
| DiscoveredDevices (addresses : list string)
| ClientConnect (timeout : Q)
| ClientPair
| ClientDisconnect
| Sleep (seconds : Q).

Section ConnectWithScanner.

Variable address : string.          (* self.client.address *)
Variable psk : bool.                (* bool(self._psk) *)

(** The world outside, attempt by attempt (attempts are numbered from 1,
    as the variable [attempt] is): the addresses the scanner has seen, the
    outcome of [client.connect(timeout)] and of [client.pair(...)]. *)
Variable discovered_devices : nat -> list string.
Variable client_connect : nat -> Q -> exn + unit.
Variable client_pair : nat -> exn + bool.

(** [_connect_client]: the calls it makes and how it ends. Service
    enumeration under [verbose_log], the connect time stamp and the log
    lines have no bearing on control flow; a pairing that reports failure
    is only logged. *)
Definition _connect_client (attempt : nat) (timeout : Q) : list io * (exn + unit) :=
  match client_connect attempt timeout with
  | inl e => ([ClientConnect timeout], inl e)
  | inr _ =>
      if psk then
        match client_pair attempt with
        | inl e => ([ClientConnect timeout; ClientPair], inl e)
        | inr _ => ([ClientConnect timeout; ClientPair], inr tt)
        end
      else ([ClientConnect timeout], inr tt)
  end.

(** The body of [try:] for one attempt. *)
Definition try_attempt (attempt : nat) (timeout : Q) : list io * (exn + unit) :=
  let discovered := discovered_devices attempt in
  if bool_decide (address ∉ discovered)
  then ([DiscoveredDevices discovered], inl (NotDiscovered discovered))
  else
    match _connect_client attempt (timeout / 2)%Q with
    | (evs, r) => (DiscoveredDevices discovered :: evs, r)
    end.

(** [while True:] with the [except] clause; [tr] is the calls made so far.
    [fuel] bounds the iterations, [None] is a loop that has not finished
    within [fuel] iterations. *)
Fixpoint connect_loop (fuel : nat) (attempt : nat) (timeout : Q) (tr : list io)
    : option (list io * (exn + unit)) :=
  match fuel with
  | O => None
  | S fuel' =>
      match try_attempt attempt timeout with
      | (evs, inr _) =>
          Some (tr ++ evs ++ [ScannerStop], inr tt)
      | (evs, inl e) =>
          if (attempt <? 8)%nat then
            connect_loop fuel' (attempt + 1) timeout
              (tr ++ evs ++ [ClientDisconnect; Sleep (0.2 * 1.5 ^ Z.of_nat attempt)%Q])
          else
            Some (tr ++ evs ++ [ClientDisconnect; ScannerStop], inl e)
      end
  end.

Definition _connect_with_scanner (fuel : nat) (timeout : Q)
    : option (list io * (exn + unit)) :=
  connect_loop fuel 1 timeout [ScannerStart].

(** Calls of the failed attempts [from .. from + n - 1], each followed by
    the disconnect and the back-off sleep of the [except] clause. *)
Fixpoint retries (from n : nat) (timeout : Q) : list io :=
  match n with
  | O => []
  | S n' =>
      (try_attempt from timeout).1
        ++ [ClientDisconnect; Sleep (0.2 * 1.5 ^ Z.of_nat from)%Q]
        ++ retries (S from) n' timeout
  end.

End ConnectWithScanner.

(** Every attempt starts by reading the scanner's discovered devices. *)
Definition is_attempt (ev : io) : bool :=
  match ev with DiscoveredDevices _ => true | _ => false end.

Fixpoint attempts_made (tr : list io) : nat :=
  match tr with
  | [] => 0
  | ev :: tr' => (if is_attempt ev then 1 else 0) + attempts_made tr'
  end.

(** ** Vocabulary of the statements *)

(** Leaves of a name, left to right: the atomic names a group stands for. *)
Fixpoint leaves (n : name) : list key :=
  match n with
  | NAtom k => [k]
  | NTuple l =>
      (fix each (l : list name) : list key :=
         match l with
         | [] => []
         | x :: l' => leaves x ++ each l'
         end) l
  end.

(** Atomic acquires in sequence, stopping at the first that raises. *)
Fixpoint acquire_keys (ks : list key) (p : gmap key future) : gmap key future * (exn + unit) :=
  match ks with
  | [] => (p, inr tt)
  | k :: ks' =>
      match acquire (NAtom k) p with
      | (p', inr _) => acquire_keys ks' p'
      | (p', inl e) => (p', inl e)
      end
  end.

(** The pool with a pending future registered under each of [ks]. *)
Definition register (ks : list key) (p : gmap key future) : gmap key future :=
  foldl (fun p k => <[k := Pending]> p) p ks.

(** Byte 299 is the sum modulo 256 of bytes 0..298. *)
Definition checksum_ok (msg : bytes) : Prop :=
  msg !! 299%nat = Some (foldr Z.add 0 (take 299 msg) mod 256).

(** A full inbound message: magic header, at least 300 bytes, checksum. *)
Definition valid_message (msg : bytes) : Prop :=
  take 4 msg = HEADER /\ (MIN_RESPONSE_SIZE <= length msg)%nat /\ checksum_ok msg.

(** The future under the tag is absent or still pending, so that
    [set_result] returns normally. *)
Definition resolvable (p : gmap key future) (k : key) : Prop :=
  p !! k = None \/ p !! k = Some Pending.

(** The buffer the handler works on once [data] is appended. *)
Definition incoming (data : bytes) (s : JKBt) : bytes :=
  (if bytes_eqb (take 4 data) HEADER then [] else _buffer s) ++ data.

(** What [_buffer_crc_check] answers on buffer [b]; [None]: [IndexError]. *)
Definition crc_verdict (b : bytes) : option bool :=
  match b !! 299%nat with
  | None => None
  | Some crc_expected => Some (calc_crc (take 299 b) =? crc_expected)
  end.

(** The state after [_buffer_crc_check] ran on buffer [b]. *)
Definition checked (b : bytes) (v : option bool) (s : JKBt) : JKBt :=
  record [CrcCheck b v] (set_buffer b s).

(** The end of the handler after [_decode_msg]: the final
    [self._buffer.clear()] runs only if no exception is on its way. *)
Definition finish (r : JKBt * (exn + unit)) : JKBt * (exn + unit) :=
  match r with
  | (s, inr _) => (set_buffer [] s, inr tt)
  | (s, inl e) => (s, inl e)
  end.

(** ** Concrete messages used as test inputs *)

(** A device-info response (type 3): header, type, zeros, checksum. *)
Definition sample_message : bytes := HEADER ++ 3 :: repeat 0 294 ++ [125].

(** A valid 300-byte message whose payload contains the header bytes at
    offset 100. *)
Definition restarting_message : bytes :=
  HEADER ++ repeat 0 96 ++ HEADER ++ repeat 0 195 ++ [244].

Definition new_JKBt : JKBt := mkJKBt [] ∅ ∅ ∅ [].

(** Deleting the entries under a list of names, one after the other. *)
Definition delete_keys (ks : list key) (p : gmap key future) : gmap key future :=
  foldl (fun p k => delete k p) p ks.

(** ** jikong.py: read_str, fetch_device_info *)

(** Exceptions of the functions below that the handler never raises. *)
Inductive exc : Type :=
| Raised (e : exn)
| KeyError (k : Z)
| TimeoutError
| CancelledError.




(** [b.rstrip(b'\x00')]. *)
Fixpoint rstrip_zeros (b : bytes) : bytes :=
  match b with
  | [] => []
  | x :: b' =>
      match rstrip_zeros b' with
      | [] => if x =? 0 then [] else [x]
      | r => x :: r
      end
  end.

(** The dict [structure] of [fetch_device_info], in insertion order. *)
Definition structure : list (string * nat) :=
  [("skip_header"%string, 4%nat); ("skip_rec_type"%string, 1%nat); ("skip_rec_counter"%string, 1%nat);
   ("model"%string, 16%nat); ("hw"%string, 8%nat); ("sf"%string, 8%nat); ("skip_uptime"%string, 4%nat); ("skip_power"%string, 4%nat);
   ("device_name"%string, 16%nat); ("device_passcode"%string, 16%nat); ("manufactured"%string, 8%nat);
   ("sn"%string, 11%nat); ("passcode"%string, 5%nat); ("skip_user_data"%string, 16%nat);
   ("setup_passcode"%string, 16%nat)].

(** The [for] loop of [fetch_device_info]. [printed] collects, for every
    line printed, the field name and the bytes handed to [decode]. *)
Fixpoint fetch_fields (items : list (string * nat)) (buf : bytes)
    (printed : list (string * bytes)) : list (string * bytes) :=
  match items with
  | [] => printed
  | (_type, _len) :: items' =>
      let printed :=
        if String.prefix "skip"%string _type then printed
        else printed ++ [(_type, rstrip_zeros (take _len buf))] in
      fetch_fields items' (drop _len buf) printed
  end.

Definition fetch_device_info (s : JKBt) : exc + list (string * bytes) :=
  match _resp_table s !! 3 with
  | None => inl (KeyError 3)
  | Some buf => inr (fetch_fields structure buf [])
  end.

(** ** bt.py: characteristic_uuid_to_handle, _on_disconnect *)

Record characteristic : Type := mkChar {
  char_uuid : string;
  char_properties : list string;
  char_handle : Z;
}.

(** [client.services] is a list of services, each a list of
    characteristics. The result is a handle (an int) or the uuid itself. *)
Fixpoint characteristic_uuid_to_handle (services : list (list characteristic))
    (uuid : string) (property : string) : key :=
  match services with
  | [] => inr uuid
  | service :: services' =>
      (fix chars (cs : list characteristic) : key :=
         match cs with
         | [] => characteristic_uuid_to_handle services' uuid property
         | char :: cs' =>
             if bool_decide (char_uuid char = uuid)
                && bool_decide (property ∈ char_properties char)
             then inl (char_handle char)
             else chars cs'
         end) service
  end.

(** [BtBms._on_disconnect]: the warning apart, it clears the pool. *)
Definition _on_disconnect (s : JKBt) : JKBt :=
  set_fetch_futures (clear (_fetch_futures s)) s.



(** ** jikong.py: JKBt._q, with bt.py: FuturesPool.wait_for *)

(** What the event loop may run while a coroutine of the session is
    suspended in an [await]: the delivery of a notification fragment to
    [_notification_handler] (an exception raised there does not reach the
    suspended coroutine) or the transport's disconnect callback. *)
Inductive event : Type :=
| Notification (data : bytes)
| Disconnected.

Definition deliver (s : JKBt) (ev : event) : JKBt :=
  match ev with
  | Notification data => (_notification_handler data s).1
  | Disconnected => _on_disconnect s
  end.

(** [Future.cancel()]: only a pending future becomes cancelled. *)
Definition cancel (f : future) : future :=
  match f with Pending => Cancelled | _ => f end.

(** The session together with the future object a suspended [wait_for]
    holds for name [k]. As long as the pool has an entry under [k] that
    entry is this very object (nothing acquires while the coroutine is
    suspended), so a result set through the pool shows in it; [clear]
    cancels the object before it empties the pool. *)
Definition watch (k : key) (sw : JKBt * future) (ev : event) : JKBt * future :=
  match ev with
  | Notification data =>
      let s' := (_notification_handler data sw.1).1 in
      (s', match _fetch_futures s' !! k with Some f => f | None => sw.2 end)
  | Disconnected => (_on_disconnect sw.1, cancel sw.2)
  end.

(** [FuturesPool.wait_for] on [self._fetch_futures] for an atomic name.
    [events] is what the event loop runs until the coroutine resumes; a
    future still pending then stands for the timeout having expired.
    [asyncio.wait_for(None, ...)] is a [TypeError]. The [finally] clause
    removes the name on every path. *)
Definition wait_for (k : key) (events : list event) (s : JKBt) : JKBt * (exc + bytes) :=
  match _fetch_futures s !! k with
  | None =>
      (set_fetch_futures (remove (NAtom k) (_fetch_futures s)) s, inl (Raised TypeError))
  | Some f =>
      match foldl (watch k) (s, f) events with
      | (s', w) =>
          (set_fetch_futures (remove (NAtom k) (_fetch_futures s')) s',
           match w with
           | Done value => inr value
           | Cancelled => inl CancelledError
           | Pending => inl TimeoutError
           end)
      end
  end.

(** [JKBt._q] for an integer response type, as at its call site. The
    world supplies what runs during the write, how the write ends and
    what runs during the wait; the frames handed to [write_gatt_char] are
    returned next to the result. [FutureContext.__exit__] removes the name
    on every way out of the [with] block. *)
Definition _q (cmd resp : Z) (while_writing : list event) (written : exn + unit)
    (while_waiting : list event) (s : JKBt) : JKBt * list bytes * (exc + bytes) :=
  match acquire (NAtom (inl resp)) (_fetch_futures s) with
  | (p, inl e) => (set_fetch_futures p s, [], inl (Raised e))
  | (p, inr context) =>
      let s := set_fetch_futures p s in
      let __exit__ := fun s => set_fetch_futures (remove context (_fetch_futures s)) s in
      match _jk_command cmd [] with
      | inl e => (__exit__ s, [], inl (Raised e))
      | inr frame =>
          let s := foldl deliver s while_writing in
          match written with
          | inl e => (__exit__ s, [frame], inl (Raised e))
          | inr _ =>
              match wait_for (inl resp) while_waiting s with
              | (s, r) => (__exit__ s, [frame], r)
              end
          end
      end
  end.

(** Where the printed fields lie in a device-info message: name, offset
    of the first byte, length. *)
Definition field_layout : list (string * nat * nat) :=
  [("model"%string, 6%nat, 16%nat); ("hw"%string, 22%nat, 8%nat);
   ("sf"%string, 30%nat, 8%nat); ("device_name"%string, 46%nat, 16%nat);
   ("device_passcode"%string, 62%nat, 16%nat); ("manufactured"%string, 78%nat, 8%nat);
   ("sn"%string, 86%nat, 11%nat); ("passcode"%string, 97%nat, 5%nat);
   ("setup_passcode"%string, 118%nat, 16%nat)].

(** * Properties *)

(** ** Checksum and byte-string facts *)

Lemma calc_crc_mod (l : bytes) : calc_crc l = foldr Z.add 0 l mod 256.
Proof.
  unfold calc_crc. change 255 with (Z.ones 8).
  rewrite Z.land_ones by lia. reflexivity.
Qed.

Lemma calc_crc_is_byte (l : bytes) : is_byte (calc_crc l) = true.
Proof.
  rewrite calc_crc_mod. unfold is_byte.
  pose proof (Z.mod_pos_bound (foldr Z.add 0 l) 256 ltac:(lia)).
  apply andb_true_intro; split; [apply Z.leb_le | apply Z.ltb_lt]; lia.
Qed.

Lemma to_bytes_ok (l : list Z) : forallb is_byte l = true -> to_bytes l = inr l.
Proof. unfold to_bytes. intros ->. reflexivity. Qed.

Lemma forallb_is_byte_repeat0 (n : nat) : forallb is_byte (repeat 0 n) = true.
Proof. induction n as [|n IH]; simpl; [reflexivity | exact IH]. Qed.

Lemma bytes_eqb_eq (a b : bytes) : bytes_eqb a b = true <-> a = b.
Proof.
  revert b. induction a as [|x a IH]; intros [|y b]; simpl; split; try congruence; try done.
  - intros [Hxy Hab]%andb_prop. apply Z.eqb_eq in Hxy. apply IH in Hab. congruence.
  - intros [= -> ->]. rewrite Z.eqb_refl. simpl. apply IH. reflexivity.
Qed.

(** ** Outbound frame *)

Lemma jk_command_ok (address : Z) (value : list Z) :
  is_byte address = true ->
  forallb is_byte value = true ->
  (length value <= 13)%nat ->
  let body := [170; 85; 144; 235; address; Z.of_nat (length value)]
                ++ value ++ repeat 0 (13 - length value)%nat in
  _jk_command address value = inr (body ++ [foldr Z.add 0 body mod 256])
  /\ length body = 19%nat.
Proof.
  intros Haddr Hval Hn body. unfold _jk_command.
  assert (Hle : (length value <=? 13)%nat = true) by (apply Nat.leb_le; exact Hn).
  rewrite Hle. simpl negb. cbv iota.
  assert (Hn_byte : is_byte (Z.of_nat (length value)) = true).
  { unfold is_byte. apply andb_true_intro; split; [apply Z.leb_le | apply Z.ltb_lt]; lia. }
  rewrite (to_bytes_ok [170; 85; 144; 235; address; Z.of_nat (length value)]).
  2:{ simpl. rewrite Haddr, Hn_byte. reflexivity. }
  unfold ebind at 1. rewrite (to_bytes_ok value Hval). unfold ebind at 1.
  rewrite (to_bytes_ok _ (forallb_is_byte_repeat0 _)). unfold ebind at 1.
  rewrite to_bytes_ok.
  2:{ simpl. rewrite calc_crc_is_byte. reflexivity. }
  unfold ebind. rewrite calc_crc_mod. subst body.
  rewrite <- !app_assoc. split; [reflexivity|].
  rewrite !length_app, repeat_length. simpl. lia.
Qed.

(** C5. For a target id byte and a payload of [n <= 13] bytes,
    [_jk_command] returns the 20 bytes: header AA 55 90 EB, the id, [n],
    the payload, [13 - n] zero bytes and the sum modulo 256 of those 19
    bytes; for a longer payload it fails its assertion, and nothing else
    has happened by then. *)
Theorem jk_command_builds_frame (address : Z) (value : list Z) :
  is_byte address = true ->
  forallb is_byte value = true ->
  ((length value <= 13)%nat ->
     let body := [170; 85; 144; 235; address; Z.of_nat (length value)]
                   ++ value ++ repeat 0 (13 - length value)%nat in
     _jk_command address value = inr (body ++ [foldr Z.add 0 body mod 256])
     /\ length body = 19%nat
     /\ length (body ++ [foldr Z.add 0 body mod 256]) = 20%nat)
  /\ ((13 < length value)%nat ->
     _jk_command address value = inl (AssertionError (ValTooLong value))).
Proof.
  intros Haddr Hval. split.
  - intros Hn body.
    destruct (jk_command_ok address value Haddr Hval Hn) as [Hframe Hlen].
    split; [exact Hframe|]. split; [exact Hlen|].
    rewrite length_app. fold body in Hlen. rewrite Hlen. reflexivity.
  - intros Hn. unfold _jk_command.
    assert (Hle : (length value <=? 13)%nat = false) by (apply Nat.leb_gt; exact Hn).
    rewrite Hle. reflexivity.
Qed.

Lemma jk_command_builds_frame_witness :
  _jk_command 151 [] =
    inr [170; 85; 144; 235; 151; 0; 0; 0; 0; 0; 0; 0; 0; 0; 0; 0; 0; 0; 0; 17]
  /\ _jk_command 151 (repeat 7 14) = inl (AssertionError (ValTooLong (repeat 7 14))).
Proof.
  split.
  - refine (proj1 (proj1 (jk_command_builds_frame 151 [] _ _) _)).
    + reflexivity.
    + reflexivity.
    + simpl. lia.
  - refine (proj2 (jk_command_builds_frame 151 (repeat 7 14) _ _) _).
    + reflexivity.
    + reflexivity.
    + simpl. lia.
Defined.

(** ** Inbound handler, case by case *)

Ltac run_jk :=
  cbn [_buffer _resp_table _fetch_futures _callbacks calls set_buffer record
       set_resp_table set_fetch_futures negb andb].

Lemma handler_unfold (data : bytes) (s : JKBt) :
  _notification_handler data s =
    let b := incoming data s in
    if (MIN_RESPONSE_SIZE <=? length b)%nat then
      match crc_verdict b with
      | None => (checked b None s, inl IndexError)
      | Some true => finish (_decode_msg b (checked b (Some true) s))
      | Some false =>
          let s1 := checked b (Some false) s in
          match index HEADER b with
          | None => (set_buffer [] s1, inr tt)
          | Some idx =>
              let b2 := drop idx b in
              match crc_verdict b2 with
              | None => (checked b2 None s1, inl IndexError)
              | Some true => finish (_decode_msg b2 (checked b2 (Some true) s1))
              | Some false => (set_buffer [] (checked b2 (Some false) s1), inr tt)
              end
          end
      end
    else (set_buffer b s, inr tt).
Proof.
  destruct s as [buf tbl futs cbs cs].
  unfold _notification_handler, _buffer_crc_check, bind, modify, get, ret, raise,
    incoming, checked, finish, crc_verdict, contains.
  change (MIN_RESPONSE_SIZE - 1)%nat with 299%nat.
  destruct (bytes_eqb (take 4 data) HEADER); run_jk.
  all: match goal with |- context [(MIN_RESPONSE_SIZE <=? length ?b)%nat] =>
         destruct (MIN_RESPONSE_SIZE <=? length b)%nat; run_jk; [|reflexivity];
         destruct (b !! 299%nat) as [e|]; run_jk; [|reflexivity];
         destruct (calc_crc (take 299 b) =? e); run_jk;
         [ destruct (_decode_msg b _) as [s' [e'|[]]]; reflexivity | ];
         destruct (index HEADER b) as [idx|]; run_jk; [|reflexivity];
         destruct (drop idx b !! 299%nat) as [e2|]; run_jk; [|reflexivity];
         destruct (calc_crc (take 299 (drop idx b)) =? e2); run_jk;
         [ destruct (_decode_msg (drop idx b) _) as [s' [e'|[]]]; reflexivity
         | reflexivity ]
       end.
Qed.

Lemma decode_unfold (b : bytes) (t : Z) (s : JKBt) :
  b !! 4%nat = Some t ->
  _decode_msg b s =
    let s1 := set_resp_table (<[t := b]> (_resp_table s)) (record [DecodeMsg b] s) in
    match _fetch_futures s !! (inl t : key) with
    | Some (Done _) | Some Cancelled => (s1, inl InvalidStateError)
    | pending =>
        let s2 := match pending with
                  | Some Pending =>
                      set_fetch_futures (<[inl t := Done (_buffer s)]> (_fetch_futures s)) s1
                  | _ => s1
                  end in
        match _callbacks s !! t with
        | Some cbs => (record (map (fun cb => Callback cb b) cbs) s2, inr tt)
        | None => (s2, inr tt)
        end
    end.
Proof.
  intros Ht. destruct s as [buf tbl futs cbs cs].
  unfold _decode_msg, fetch_futures_set_result, set_result, bind, modify, get, ret, raise.
  rewrite Ht. run_jk.
  destruct (futs !! inl t) as [[| |]|]; run_jk; try reflexivity.
  all: destruct (cbs !! t); reflexivity.
Qed.

Lemma crc_verdict_ok (b : bytes) : checksum_ok b -> crc_verdict b = Some true.
Proof.
  unfold checksum_ok, crc_verdict. intros ->.
  rewrite calc_crc_mod, Z.eqb_refl. reflexivity.
Qed.

Lemma crc_verdict_bad (b : bytes) :
  (MIN_RESPONSE_SIZE <= length b)%nat -> ~ checksum_ok b -> crc_verdict b = Some false.
Proof.
  unfold checksum_ok, crc_verdict, MIN_RESPONSE_SIZE. intros Hlen Hbad.
  destruct (b !! 299%nat) as [e|] eqn:He.
  - rewrite calc_crc_mod.
    destruct (Z.eqb_spec (foldr Z.add 0 (take 299 b) mod 256) e) as [Heq|]; [|reflexivity].
    exfalso. apply Hbad. congruence.
  - apply lookup_ge_None in He. lia.
Qed.

(** ** First occurrence of the header *)

Lemma starts_with_header_app (rest : bytes) : starts_with HEADER (HEADER ++ rest) = true.
Proof. reflexivity. Qed.

Lemma starts_with_take (b : bytes) : starts_with HEADER b = bytes_eqb (take 4 b) HEADER.
Proof.
  destruct b as [|x0 [|x1 [|x2 [|x3 b]]]]; cbn; try reflexivity.
  all: rewrite ?(Z.eqb_sym x0), ?(Z.eqb_sym x1), ?(Z.eqb_sym x2), ?(Z.eqb_sym x3).
  all: rewrite ?andb_true_r, ?andb_false_r; reflexivity.
Qed.

Lemma index_None_cons (a : Z) (pre : bytes) :
  index HEADER (a :: pre) = None ->
  starts_with HEADER (a :: pre) = false /\ index HEADER pre = None.
Proof.
  cbn [index]. destruct (starts_with HEADER (a :: pre)); [discriminate|].
  destruct (index HEADER pre); [discriminate|]. split; reflexivity.
Qed.

Lemma no_straddle (a : Z) (pre rest : bytes) :
  starts_with HEADER (a :: pre) = false ->
  starts_with HEADER ((a :: pre) ++ HEADER ++ rest) = false.
Proof.
  destruct pre as [|x [|y [|z pre]]]; cbn; intros H.
  - rewrite andb_false_r. reflexivity.
  - rewrite !andb_false_r. reflexivity.
  - rewrite !andb_false_r. reflexivity.
  - exact H.
Qed.

Lemma index_header_after (pre rest : bytes) :
  index HEADER pre = None ->
  index HEADER (pre ++ HEADER ++ rest) = Some (length pre).
Proof.
  induction pre as [|a pre IH]; intros Hnone.
  - reflexivity.
  - pose proof (index_None_cons _ _ Hnone) as [Hs Hi].
    change (index HEADER ((a :: pre) ++ HEADER ++ rest))
      with (if starts_with HEADER ((a :: pre) ++ HEADER ++ rest) then Some 0%nat
            else S <$> index HEADER (pre ++ HEADER ++ rest)).
    rewrite (no_straddle _ _ _ Hs), (IH Hi). reflexivity.
Qed.

Lemma index_header_start (b : bytes) : take 4 b = HEADER -> index HEADER b = Some 0%nat.
Proof.
  intros H. apply bytes_eqb_eq in H. rewrite <- starts_with_take in H.
  destruct b; cbn [index]; rewrite H; reflexivity.
Qed.

Lemma header_split (msg : bytes) : take 4 msg = HEADER -> msg = HEADER ++ drop 4 msg.
Proof. intros H. rewrite <- H. symmetry. apply take_drop. Qed.

(** ** Effects of [_decode_msg] and of a run below the minimum size *)

Lemma accepted_app (l1 l2 : list call) : accepted (l1 ++ l2) = accepted l1 ++ accepted l2.
Proof. apply omap_app. Qed.

Lemma crc_checks_app (l1 l2 : list call) :
  crc_checks (l1 ++ l2) = crc_checks l1 ++ crc_checks l2.
Proof. apply omap_app. Qed.

Lemma accepted_callbacks (b : bytes) (cbs : list nat) :
  accepted (map (fun cb => Callback cb b) cbs) = [].
Proof. induction cbs as [|cb cbs IH]; [reflexivity | exact IH]. Qed.

Lemma crc_checks_callbacks (b : bytes) (cbs : list nat) :
  crc_checks (map (fun cb => Callback cb b) cbs) = [].
Proof. induction cbs as [|cb cbs IH]; [reflexivity | exact IH]. Qed.

Lemma decode_effects (b : bytes) (t : Z) (s : JKBt) :
  b !! 4%nat = Some t ->
  accepted (calls (_decode_msg b s).1) = accepted (calls s) ++ [b]
  /\ crc_checks (calls (_decode_msg b s).1) = crc_checks (calls s)
  /\ _buffer (_decode_msg b s).1 = _buffer s
  /\ _resp_table (_decode_msg b s).1 = <[t := b]> (_resp_table s)
  /\ (resolvable (_fetch_futures s) (inl t) -> (_decode_msg b s).2 = inr tt)
  /\ (forall v, _fetch_futures s !! (inl t : key) = Some (Done v) ->
        (_decode_msg b s).2 = inl InvalidStateError
        /\ _fetch_futures (_decode_msg b s).1 = _fetch_futures s).
Proof.
  intros Ht. rewrite (decode_unfold b t s Ht). unfold resolvable.
  destruct s as [buf tbl futs cbs cs]. run_jk.
  destruct (futs !! inl t) as [[| |]|]; destruct (cbs !! t) as [l|]; run_jk;
    cbn [fst snd]; run_jk;
    rewrite ?accepted_app, ?crc_checks_app, ?accepted_callbacks, ?crc_checks_callbacks,
      ?app_nil_r;
    repeat split; try reflexivity; try discriminate; try (intros [?|?]; discriminate).
Qed.

Lemma handler_short (data : bytes) (s : JKBt) :
  (length (incoming data s) < MIN_RESPONSE_SIZE)%nat ->
  _notification_handler data s = (set_buffer (incoming data s) s, inr tt).
Proof.
  intros Hlen. rewrite handler_unfold. cbv zeta.
  apply Nat.leb_gt in Hlen. rewrite Hlen. reflexivity.
Qed.

Lemma finish_fst_calls (r : JKBt * (exn + unit)) : calls (finish r).1 = calls r.1.
Proof. destruct r as [s [e|[]]]; reflexivity. Qed.

Lemma finish_ok (r : JKBt * (exn + unit)) :
  r.2 = inr tt -> (finish r).2 = inr tt /\ _buffer (finish r).1 = [].
Proof. destruct r as [s [e|[]]]; cbn; [discriminate | split; reflexivity]. Qed.

Lemma finish_raise (r : JKBt * (exn + unit)) (e : exn) :
  r.2 = inl e -> finish r = r.
Proof. destruct r as [s [e'|[]]]; cbn; [reflexivity | discriminate]. Qed.

Lemma set_buffer_same (s : JKBt) : set_buffer (_buffer s) s = s.
Proof. destruct s; reflexivity. Qed.

Lemma incoming_append (data : bytes) (s : JKBt) :
  (take 4 data = HEADER -> _buffer s = []) ->
  incoming data s = _buffer s ++ data.
Proof.
  unfold incoming. intros H.
  destruct (bytes_eqb (take 4 data) HEADER) eqn:E; [|reflexivity].
  apply bytes_eqb_eq in E. rewrite (H E). reflexivity.
Qed.

Lemma incoming_length (data : bytes) (s : JKBt) :
  (length (incoming data s) <= length (_buffer s) + length data)%nat.
Proof.
  unfold incoming. destruct (bytes_eqb (take 4 data) HEADER);
    rewrite length_app; simpl; lia.
Qed.

Lemma feed_app (a b : list bytes) (s : JKBt) :
  feed (a ++ b) s = ((feed b (feed a s).1).1, (feed a s).2 ++ (feed b (feed a s).1).2).
Proof.
  revert s. induction a as [|d a IH]; intros s; cbn [feed app fst snd].
  - destruct (feed b s); reflexivity.
  - destruct (_notification_handler d s) as [s' r]. rewrite IH.
    destruct (feed a s') as [s'' rs]. cbn [fst snd].
    destruct (feed b s'') as [s3 rs']. reflexivity.
Qed.

(** While fewer than 300 bytes have arrived the handler only accumulates. *)
Lemma feed_below (ds : list bytes) (s : JKBt) :
  (length (_buffer s) + length (concat ds) < MIN_RESPONSE_SIZE)%nat ->
  exists b,
    feed ds s = (set_buffer b s, replicate (length ds) (inr tt))
    /\ (length b <= length (_buffer s) + length (concat ds))%nat
    /\ (Forall (fun d => take 4 d <> HEADER) ds -> b = _buffer s ++ concat ds).
Proof.
  revert s. induction ds as [|d ds IH]; intros s Hlen.
  - exists (_buffer s). cbn. rewrite set_buffer_same, app_nil_r.
    split; [reflexivity|]. split; [lia|]. intros _. reflexivity.
  - cbn [concat] in Hlen. rewrite length_app in Hlen.
    pose proof (incoming_length d s) as Hinc.
    cbn [feed]. rewrite handler_short by lia.
    destruct (IH (set_buffer (incoming d s) s)) as (b & Hfeed & Hb & Hcat).
    { cbn [_buffer set_buffer]. lia. }
    exists b. rewrite Hfeed. cbn [_buffer set_buffer] in *.
    split; [reflexivity|]. split; [cbn [concat]; rewrite length_app; lia|].
    intros Hall. inversion Hall as [|? ? Hd Hds]; subst.
    rewrite (Hcat Hds), incoming_append by (intros; contradiction).
    cbn [concat]. rewrite app_assoc. reflexivity.
Qed.

Lemma feed_prefix (ds : list bytes) (s : JKBt) :
  _buffer s = [] ->
  Forall (fun d => take 4 d <> HEADER) (tail ds) ->
  (length (concat ds) < MIN_RESPONSE_SIZE)%nat ->
  feed ds s = (set_buffer (concat ds) s, replicate (length ds) (inr tt)).
Proof.
  intros Hb Htl Hlen. destruct ds as [|d ds].
  - cbn. rewrite <- Hb, set_buffer_same. reflexivity.
  - cbn [tail concat] in *. rewrite length_app in Hlen.
    assert (Hinc : incoming d s = d).
    { rewrite incoming_append by (intros; exact Hb). rewrite Hb. reflexivity. }
    cbn [feed]. rewrite handler_short by (rewrite Hinc; lia). rewrite Hinc.
    destruct (feed_below ds (set_buffer d s)) as (b & Hfeed & _ & Hcat).
    { cbn [_buffer set_buffer]. lia. }
    rewrite Hfeed, (Hcat Htl). reflexivity.
Qed.

(** ** Acceptance of a valid message *)

Lemma valid_message_type (msg : bytes) : valid_message msg -> exists t, msg !! 4%nat = Some t.
Proof.
  intros (_ & Hlen & _). apply lookup_lt_is_Some_2. unfold MIN_RESPONSE_SIZE in Hlen. lia.
Qed.

Lemma handler_valid (data msg : bytes) (s : JKBt) :
  incoming data s = msg ->
  valid_message msg ->
  _notification_handler data s = finish (_decode_msg msg (checked msg (Some true) s)).
Proof.
  intros Hinc (_ & Hlen & Hcrc). rewrite handler_unfold, Hinc. cbv zeta.
  apply Nat.leb_le in Hlen. rewrite Hlen, (crc_verdict_ok _ Hcrc). reflexivity.
Qed.

Lemma accepted_checked (b : bytes) (v : option bool) (s : JKBt) :
  accepted (calls (checked b v s)) = accepted (calls s).
Proof. cbn. rewrite accepted_app. cbn. apply app_nil_r. Qed.

Lemma handler_valid_accepted (data msg : bytes) (s : JKBt) :
  incoming data s = msg ->
  valid_message msg ->
  accepted (calls (_notification_handler data s).1) = accepted (calls s) ++ [msg].
Proof.
  intros Hinc Hv. rewrite (handler_valid data msg s Hinc Hv), finish_fst_calls.
  destruct (valid_message_type msg Hv) as [t Ht].
  destruct (decode_effects msg t (checked msg (Some true) s) Ht) as (Hacc & _).
  rewrite Hacc, accepted_checked. reflexivity.
Qed.

(** C2 (as amended). A valid full message, split into chunks of which
    none but the first begins with the magic header and of which all but
    the last total fewer than 300 bytes, fed from an empty buffer, is
    handed to [_decode_msg] exactly once, whole. *)
Theorem fragments_accept_once (msg : bytes) (pre : list bytes) (c : bytes) (s : JKBt) :
  valid_message msg ->
  concat (pre ++ [c]) = msg ->
  Forall (fun d => take 4 d <> HEADER) (tail (pre ++ [c])) ->
  (length (concat pre) < MIN_RESPONSE_SIZE)%nat ->
  _buffer s = [] ->
  accepted (calls (feed (pre ++ [c]) s).1) = accepted (calls s) ++ [msg].
Proof.
  intros Hv Hcat Htl Hlen Hb.
  rewrite concat_app in Hcat. cbn [concat] in Hcat. rewrite app_nil_r in Hcat.
  rewrite feed_app. cbn [fst snd feed].
  assert (Hpre : feed pre s = (set_buffer (concat pre) s, replicate (length pre) (inr tt))).
  { apply feed_prefix; [exact Hb | | exact Hlen].
    destruct pre as [|d pre]; [constructor|].
    cbn [tail app] in Htl |- *. apply Forall_app in Htl. tauto. }
  rewrite Hpre. cbn [fst].
  set (s1 := set_buffer (concat pre) s).
  assert (Hinc : incoming c s1 = msg).
  { rewrite <- Hcat. destruct pre as [|d pre].
    - rewrite incoming_append by (intros; reflexivity). reflexivity.
    - cbn [tail app] in Htl. apply Forall_app in Htl as [_ Hc].
      inversion Hc; subst. rewrite incoming_append by (intros; contradiction).
      reflexivity. }
  pose proof (handler_valid_accepted c msg s1 Hinc Hv) as Hacc.
  destruct (_notification_handler c s1) as [s2 r]. exact Hacc.
Qed.

Lemma sample_message_valid : valid_message sample_message.
Proof.
  split; [reflexivity|]. split; [apply Nat.leb_le; vm_compute; reflexivity|].
  vm_compute. reflexivity.
Qed.

Lemma fragments_accept_once_witness :
  accepted (calls (feed ([take 150 sample_message] ++ [drop 150 sample_message]) new_JKBt).1)
    = accepted (calls new_JKBt) ++ [sample_message].
Proof.
  apply (fragments_accept_once sample_message [take 150 sample_message]
           (drop 150 sample_message) new_JKBt).
  - exact sample_message_valid.
  - vm_compute. reflexivity.
  - constructor; [vm_compute; discriminate | constructor].
  - apply Nat.ltb_lt. vm_compute. reflexivity.
  - reflexivity.
Defined.

(** C2 as stated fails twice over: a chunk boundary in front of header
    bytes inside the payload makes the handler drop the first part, so
    nothing is accepted; and a message longer than 300 bytes is accepted
    as soon as 300 bytes are there, without its tail. *)
Lemma fragments_accept_once_fails :
  (valid_message restarting_message
   /\ concat [take 100 restarting_message; drop 100 restarting_message] = restarting_message
   /\ accepted (calls (feed [take 100 restarting_message; drop 100 restarting_message]
                         new_JKBt).1) = [])
  /\ (valid_message (sample_message ++ [0])
      /\ concat [sample_message; [0]] = sample_message ++ [0]
      /\ accepted (calls (feed [sample_message; [0]] new_JKBt).1) = [sample_message]
      /\ sample_message <> sample_message ++ [0]).
Proof.
  split.
  - split.
    { split; [reflexivity|]. split; [apply Nat.leb_le; vm_compute; reflexivity|].
      vm_compute. reflexivity. }
    split; vm_compute; reflexivity.
  - split.
    { split; [reflexivity|]. split; [apply Nat.leb_le; vm_compute; reflexivity|].
      vm_compute. reflexivity. }
    split; [vm_compute; reflexivity|]. split; [vm_compute; reflexivity|].
    intros H. apply (f_equal length) in H. vm_compute in H. discriminate.
Qed.

(** ** An outbound frame fed to the inbound handler *)

Lemma single_bytes_no_header (l : bytes) :
  Forall (fun d => take 4 d <> HEADER) (map (fun b => [b]) l).
Proof.
  induction l as [|x l IH]; constructor; [discriminate | exact IH].
Qed.

Lemma concat_single_bytes (l : bytes) : concat (map (fun b => [b]) l) = l.
Proof. induction l as [|x l IH]; cbn; [reflexivity | rewrite IH; reflexivity]. Qed.

(** C1 (as amended). The 20-byte frame [_jk_command] builds, fed back
    to [_notification_handler] from an empty buffer in any chunking, is
    never accepted: no call raises, nothing reaches [_decode_msg], the
    response table and the futures are untouched; fed byte by byte, the
    frame is what the buffer holds afterwards. *)
Theorem frame_is_not_accepted (address : Z) (value : list Z) :
  is_byte address = true ->
  forallb is_byte value = true ->
  (length value <= 13)%nat ->
  exists frame,
    _jk_command address value = inr frame
    /\ forall (chunks : list bytes) (s : JKBt),
         concat chunks = frame ->
         _buffer s = [] ->
         accepted (calls (feed chunks s).1) = accepted (calls s)
         /\ (feed chunks s).2 = replicate (length chunks) (inr tt)
         /\ _resp_table (feed chunks s).1 = _resp_table s
         /\ _fetch_futures (feed chunks s).1 = _fetch_futures s
         /\ (chunks = map (fun b => [b]) frame -> _buffer (feed chunks s).1 = frame).
Proof.
  intros Haddr Hval Hn.
  destruct (jk_command_ok address value Haddr Hval Hn) as [Hframe Hlen].
  eexists. split; [exact Hframe|]. intros chunks s Hcat Hb.
  destruct (feed_below chunks s) as (b & Hfeed & _ & Hsame).
  { rewrite Hcat, Hb, length_app, Hlen. unfold MIN_RESPONSE_SIZE. simpl. lia. }
  rewrite Hfeed. cbn [fst snd _buffer _resp_table _fetch_futures calls set_buffer].
  repeat (split; [reflexivity|]).
  intros ->. rewrite Hsame by apply single_bytes_no_header.
  rewrite Hb, concat_single_bytes. reflexivity.
Qed.

Lemma frame_is_not_accepted_witness :
  exists frame,
    _jk_command 151 [] = inr frame
    /\ accepted (calls (feed (map (fun b => [b]) frame) new_JKBt).1) = []
    /\ _buffer (feed (map (fun b => [b]) frame) new_JKBt).1 = frame.
Proof.
  destruct (frame_is_not_accepted 151 []) as (frame & Hframe & Hfeed).
  - reflexivity.
  - reflexivity.
  - simpl. lia.
  - exists frame. split; [exact Hframe|].
    destruct (Hfeed (map (fun b => [b]) frame) new_JKBt) as (Hacc & _ & _ & _ & Hbuf).
    + apply concat_single_bytes.
    + reflexivity.
    + split; [exact Hacc | exact (Hbuf eq_refl)].
Defined.

(** C1 as stated fails: the frame for payload [1; 2; 3], fed byte by
    byte, produces no accepted message at all, let alone the payload. *)
Lemma frame_roundtrip_fails :
  exists frame,
    _jk_command 151 [1; 2; 3] = inr frame
    /\ accepted (calls (feed (map (fun b => [b]) frame) new_JKBt).1) = [].
Proof.
  eexists. split; [vm_compute; reflexivity|]. vm_compute. reflexivity.
Qed.

(** ** Resynchronisation *)

Lemma crc_checks_checked (b : bytes) (v : option bool) (s : JKBt) :
  crc_checks (calls (checked b v s)) = crc_checks (calls s) ++ [(b, v)].
Proof. cbn. rewrite crc_checks_app. reflexivity. Qed.

Lemma handler_resync (data pre msg : bytes) (s : JKBt) :
  incoming data s = pre ++ msg ->
  valid_message msg ->
  index HEADER pre = None ->
  ~ checksum_ok (pre ++ msg) ->
  _notification_handler data s =
    finish (_decode_msg msg (checked msg (Some true) (checked (pre ++ msg) (Some false) s))).
Proof.
  intros Hinc (Hhd & Hlen & Hcrc) Hpre Hbad. rewrite handler_unfold, Hinc. cbv zeta.
  assert (Hlen' : (MIN_RESPONSE_SIZE <=? length (pre ++ msg))%nat = true).
  { apply Nat.leb_le. rewrite length_app. lia. }
  rewrite Hlen', crc_verdict_bad by (try apply Nat.leb_le; assumption).
  assert (Hidx : index HEADER (pre ++ msg) = Some (length pre)).
  { rewrite (header_split msg Hhd). apply index_header_after. exact Hpre. }
  rewrite Hidx, drop_app_length, (crc_verdict_ok _ Hcrc). reflexivity.
Qed.

(** C4 (as amended). When the bytes in front of the valid message (what
    the buffer already held, then the garbage of the fragment) contain no
    occurrence of the magic header and the first 300 accumulated bytes
    fail the checksum, the handler checks the checksum twice, once per
    alignment, and hands exactly the valid message to [_decode_msg]; if
    the future under the message's tag is not already completed the call
    returns normally and leaves the buffer empty. *)
Theorem resync_accepts_message (garbage msg : bytes) (s : JKBt) :
  valid_message msg ->
  take 4 (garbage ++ msg) <> HEADER ->
  index HEADER (_buffer s ++ garbage) = None ->
  ~ checksum_ok (_buffer s ++ garbage ++ msg) ->
  accepted (calls (_notification_handler (garbage ++ msg) s).1)
    = accepted (calls s) ++ [msg]
  /\ crc_checks (calls (_notification_handler (garbage ++ msg) s).1)
     = crc_checks (calls s)
         ++ [(_buffer s ++ garbage ++ msg, Some false); (msg, Some true)]
  /\ (forall t, msg !! 4%nat = Some t ->
        resolvable (_fetch_futures s) (inl t) ->
        (_notification_handler (garbage ++ msg) s).2 = inr tt
        /\ _buffer (_notification_handler (garbage ++ msg) s).1 = []).
Proof.
  intros Hv Hnh Hpre Hbad.
  assert (Hinc : incoming (garbage ++ msg) s = (_buffer s ++ garbage) ++ msg).
  { rewrite incoming_append by (intros; contradiction). apply app_assoc. }
  rewrite app_assoc in Hbad.
  rewrite (handler_resync _ _ _ _ Hinc Hv Hpre Hbad), <- app_assoc.
  set (s2 := checked msg (Some true) (checked (_buffer s ++ garbage ++ msg) (Some false) s)).
  destruct (valid_message_type msg Hv) as [t Ht].
  destruct (decode_effects msg t s2 Ht) as (Hacc & Hcrc & _ & _ & Hok & _).
  rewrite finish_fst_calls, Hacc, Hcrc. subst s2.
  rewrite !accepted_checked, !crc_checks_checked, <- app_assoc.
  split; [reflexivity|]. split; [reflexivity|].
  intros t' Ht' Hres. assert (t' = t) as -> by congruence.
  apply finish_ok, Hok. exact Hres.
Qed.

Lemma resync_accepts_message_witness :
  accepted (calls (_notification_handler ([1; 2; 3] ++ sample_message) new_JKBt).1)
    = [sample_message]
  /\ crc_checks (calls (_notification_handler ([1; 2; 3] ++ sample_message) new_JKBt).1)
     = [([1; 2; 3] ++ sample_message, Some false); (sample_message, Some true)]
  /\ (_notification_handler ([1; 2; 3] ++ sample_message) new_JKBt).2 = inr tt
  /\ _buffer (_notification_handler ([1; 2; 3] ++ sample_message) new_JKBt).1 = [].
Proof.
  destruct (resync_accepts_message [1; 2; 3] sample_message new_JKBt)
    as (Hacc & Hcrc & Hok).
  - exact sample_message_valid.
  - vm_compute. discriminate.
  - vm_compute. reflexivity.
  - vm_compute. discriminate.
  - split; [exact Hacc|]. split; [exact Hcrc|].
    apply (Hok 3); [reflexivity | left; reflexivity].
Defined.

(** C4 as stated fails: garbage that does not begin with the header but
    contains it (here at offset 1) makes the handler realign on that
    earlier occurrence; the re-check fails there and the whole buffer,
    valid message included, is discarded. *)
Lemma resync_fails_on_header_in_garbage :
  let garbage := [0] ++ HEADER in
  take 4 (garbage ++ sample_message) <> HEADER
  /\ ~ checksum_ok (garbage ++ sample_message)
  /\ valid_message sample_message
  /\ accepted (calls (_notification_handler (garbage ++ sample_message) new_JKBt).1) = []
  /\ _buffer (_notification_handler (garbage ++ sample_message) new_JKBt).1 = [].
Proof.
  cbv zeta. split; [vm_compute; discriminate|]. split; [vm_compute; discriminate|].
  split; [exact sample_message_valid|]. split; vm_compute; reflexivity.
Qed.

(** C9. With at least 300 bytes accumulated and a failed checksum: if
    fewer than 300 bytes remain from the first header occurrence on, the
    re-check raises [IndexError], the handler ends there and the
    truncated buffer stays; if the buffer itself begins with the header,
    the re-check runs on the very same bytes, fails again, and the buffer
    is discarded. *)
Theorem resync_recheck_not_total (data : bytes) (s : JKBt) :
  (MIN_RESPONSE_SIZE <= length (incoming data s))%nat ->
  ~ checksum_ok (incoming data s) ->
  (forall idx,
      index HEADER (incoming data s) = Some idx ->
      (length (incoming data s) - idx < MIN_RESPONSE_SIZE)%nat ->
      _notification_handler data s =
        (checked (drop idx (incoming data s)) None
           (checked (incoming data s) (Some false) s), inl IndexError))
  /\ (take 4 (incoming data s) = HEADER ->
      _notification_handler data s =
        (set_buffer []
           (checked (incoming data s) (Some false)
              (checked (incoming data s) (Some false) s)), inr tt)).
Proof.
  intros Hlen Hbad. pose proof (crc_verdict_bad _ Hlen Hbad) as Hv.
  apply Nat.leb_le in Hlen. split.
  - intros idx Hidx Hrem. rewrite handler_unfold. cbv zeta. rewrite Hlen, Hv, Hidx.
    assert (Hnone : crc_verdict (drop idx (incoming data s)) = None).
    { unfold crc_verdict. rewrite lookup_ge_None_2; [reflexivity|].
      rewrite length_drop. unfold MIN_RESPONSE_SIZE in Hrem. lia. }
    rewrite Hnone. reflexivity.
  - intros Hhd. rewrite handler_unfold. cbv zeta.
    rewrite Hlen, Hv, (index_header_start _ Hhd), drop_0, Hv. reflexivity.
Qed.

Lemma resync_recheck_not_total_witness :
  _notification_handler (0 :: HEADER ++ repeat 0 295) new_JKBt =
    (mkJKBt (HEADER ++ repeat 0 295) ∅ ∅ ∅
       [CrcCheck (0 :: HEADER ++ repeat 0 295) (Some false);
        CrcCheck (HEADER ++ repeat 0 295) None],
     inl IndexError)
  /\ _notification_handler (HEADER ++ repeat 0 296) new_JKBt =
    (mkJKBt [] ∅ ∅ ∅
       [CrcCheck (HEADER ++ repeat 0 296) (Some false);
        CrcCheck (HEADER ++ repeat 0 296) (Some false)],
     inr tt).
Proof.
  split.
  - refine (proj1 (resync_recheck_not_total (0 :: HEADER ++ repeat 0 295) new_JKBt _ _)
              1%nat _ _).
    + apply Nat.leb_le. vm_compute. reflexivity.
    + vm_compute. discriminate.
    + vm_compute. reflexivity.
    + apply Nat.ltb_lt. vm_compute. reflexivity.
  - refine (proj2 (resync_recheck_not_total (HEADER ++ repeat 0 296) new_JKBt _ _) _).
    + apply Nat.leb_le. vm_compute. reflexivity.
    + vm_compute. discriminate.
    + vm_compute. reflexivity.
Defined.

(** ** Resolving a future twice *)

Lemma set_result_noop_iff (k : key) (value : bytes) (p : gmap key future) :
  set_result (NAtom k) value p = (p, inr tt) <-> p !! k = None.
Proof.
  unfold set_result. split.
  - destruct (p !! k) as [[| |]|] eqn:E; try discriminate; [|reflexivity].
    intros [= Hp]. apply (f_equal (fun m => m !! k)) in Hp.
    rewrite lookup_insert_eq, E in Hp. discriminate.
  - intros ->. reflexivity.
Qed.

Lemma set_result_done (k : key) (v0 value : bytes) (p : gmap key future) :
  p !! k = Some (Done v0) ->
  set_result (NAtom k) value p = (p, inl InvalidStateError).
Proof. unfold set_result. intros ->. reflexivity. Qed.

Lemma handler_valid_done (msg v0 : bytes) (t : Z) (s : JKBt) :
  valid_message msg ->
  msg !! 4%nat = Some t ->
  _fetch_futures s !! (inl t : key) = Some (Done v0) ->
  (_notification_handler msg s).2 = inl InvalidStateError
  /\ _fetch_futures (_notification_handler msg s).1 = _fetch_futures s
  /\ _buffer (_notification_handler msg s).1 = msg.
Proof.
  intros Hv Ht Hdone.
  assert (Hinc : incoming msg s = msg).
  { unfold incoming. destruct Hv as (Hhd & _). apply bytes_eqb_eq in Hhd.
    rewrite Hhd. reflexivity. }
  rewrite (handler_valid msg msg s Hinc Hv).
  destruct (decode_effects msg t (checked msg (Some true) s) Ht)
    as (_ & _ & Hbuf & _ & _ & Hraise).
  destruct (Hraise v0 Hdone) as [Hr Hf].
  rewrite (finish_raise _ _ Hr), Hr, Hf, Hbuf. repeat split.
Qed.

Lemma handler_valid_pending (msg : bytes) (t : Z) (s : JKBt) :
  valid_message msg ->
  msg !! 4%nat = Some t ->
  _fetch_futures s !! (inl t : key) = Some Pending ->
  (_notification_handler msg s).2 = inr tt
  /\ _fetch_futures (_notification_handler msg s).1
     = <[inl t := Done msg]> (_fetch_futures s).
Proof.
  intros Hv Ht Hpend.
  assert (Hinc : incoming msg s = msg).
  { unfold incoming. destruct Hv as (Hhd & _). apply bytes_eqb_eq in Hhd.
    rewrite Hhd. reflexivity. }
  rewrite (handler_valid msg msg s Hinc Hv), (decode_unfold msg t _ Ht).
  destruct s as [buf tbl futs cbs cs]. unfold checked. cbv zeta. run_jk.
  cbn [_fetch_futures] in Hpend. rewrite Hpend.
  destruct (cbs !! t); split; reflexivity.
Qed.

(** C10. [set_result] returns without effect exactly when the pool has
    no entry under the name. On an entry whose future is already done it
    raises [InvalidStateError] and the stored value stays. The exception
    leaves [_notification_handler]: a valid message whose tag has a
    pending future resolves it; the same message delivered again, the
    entry still there, makes the handler raise, the first value kept. *)
Theorem second_resolve_raises :
  (forall (k : key) (value : bytes) (p : gmap key future),
      set_result (NAtom k) value p = (p, inr tt) <-> p !! k = None)
  /\ (forall (k : key) (v0 value : bytes) (p : gmap key future),
      p !! k = Some (Done v0) ->
      set_result (NAtom k) value p = (p, inl InvalidStateError))
  /\ (forall (msg v0 : bytes) (t : Z) (s : JKBt),
      valid_message msg ->
      msg !! 4%nat = Some t ->
      _fetch_futures s !! (inl t : key) = Some (Done v0) ->
      (_notification_handler msg s).2 = inl InvalidStateError
      /\ _fetch_futures (_notification_handler msg s).1 = _fetch_futures s)
  /\ (forall (msg1 msg2 : bytes) (t : Z) (s : JKBt),
      valid_message msg1 ->
      valid_message msg2 ->
      msg1 !! 4%nat = Some t ->
      msg2 !! 4%nat = Some t ->
      _fetch_futures s !! (inl t : key) = Some Pending ->
      (feed [msg1; msg2] s).2 = [inr tt; inl InvalidStateError]
      /\ _fetch_futures (feed [msg1; msg2] s).1 !! (inl t : key) = Some (Done msg1)).
Proof.
  split; [exact set_result_noop_iff|]. split; [exact set_result_done|]. split.
  - intros msg v0 t s Hv Ht Hdone.
    destruct (handler_valid_done msg v0 t s Hv Ht Hdone) as (Hr & Hf & _).
    split; assumption.
  - intros msg1 msg2 t s Hv1 Hv2 Ht1 Ht2 Hpend.
    destruct (handler_valid_pending msg1 t s Hv1 Ht1 Hpend) as [Hr1 Hf1].
    cbn [feed].
    destruct (_notification_handler msg1 s) as [s1 r1]. cbn [fst snd] in Hr1, Hf1.
    assert (Hdone : _fetch_futures s1 !! (inl t : key) = Some (Done msg1)).
    { rewrite Hf1. apply lookup_insert_eq. }
    destruct (handler_valid_done msg2 msg1 t s1 Hv2 Ht2 Hdone) as (Hr2 & Hf2 & _).
    destruct (_notification_handler msg2 s1) as [s2 r2]. cbn [fst snd] in *.
    subst r1 r2. split; [reflexivity|]. rewrite Hf2. exact Hdone.
Qed.

Lemma second_resolve_raises_witness :
  let s := set_fetch_futures {[ (inl 3 : key) := Pending ]} new_JKBt in
  (feed [sample_message; sample_message] s).2 = [inr tt; inl InvalidStateError]
  /\ _fetch_futures (feed [sample_message; sample_message] s).1 !! (inl 3 : key)
     = Some (Done sample_message).
Proof.
  cbv zeta.
  apply (proj2 (proj2 (proj2 second_resolve_raises)) sample_message sample_message 3).
  - exact sample_message_valid.
  - exact sample_message_valid.
  - reflexivity.
  - reflexivity.
  - vm_compute. reflexivity.
Defined.

(** ** FuturesPool.acquire *)

Lemma name_ind_nested (P : name -> Prop) :
  (forall k, P (NAtom k)) ->
  (forall l, Forall P l -> P (NTuple l)) ->
  forall n, P n.
Proof.
  intros HA HT. fix IH 1. intros [k|l].
  - apply HA.
  - apply HT. induction l as [|x l IHl]; constructor; [apply IH | exact IHl].
Qed.

Lemma acquire_keys_app (a b : list key) (p : gmap key future) :
  acquire_keys (a ++ b) p =
    match acquire_keys a p with
    | (p', inr _) => acquire_keys b p'
    | (p', inl e) => (p', inl e)
    end.
Proof.
  revert p. induction a as [|k a IH]; intros p; cbn [acquire_keys app]; [reflexivity|].
  destruct (acquire (NAtom k) p) as [p' [e|n]]; [reflexivity | apply IH].
Qed.

(** A group is acquired exactly as its leaves are, one after the other. *)
Lemma acquire_leaves (n : name) (p : gmap key future) :
  acquire n p =
    match acquire_keys (leaves n) p with
    | (p', inr _) => (p', inr n)
    | (p', inl e) => (p', inl e)
    end.
Proof.
  revert p. induction n as [k|l IH] using name_ind_nested; intros p.
  - cbn. destruct (p !! k); reflexivity.
  - cbn [acquire leaves].
    match goal with |- match ?each l p with _ => _ end = match acquire_keys (?lv l) p with _ => _ end =>
      assert (Heach : forall p, each l p = acquire_keys (lv l) p)
    end.
    { clear p. induction IH as [|x l Hx _ IHl]; intros p; [reflexivity|].
      simpl. rewrite acquire_keys_app, Hx.
      destruct (acquire_keys (leaves x) p) as [p' [e|[]]]; [reflexivity | apply IHl]. }
    rewrite Heach. destruct (acquire_keys _ p) as [p' [e|[]]]; reflexivity.
Qed.

Lemma register_snoc (ks : list key) (k : key) (p : gmap key future) :
  register (ks ++ [k]) p = <[k := Pending]> (register ks p).
Proof. unfold register. rewrite foldl_app. reflexivity. Qed.

Lemma register_cons (ks : list key) (k : key) (p : gmap key future) :
  register (k :: ks) p = register ks (<[k := Pending]> p).
Proof. reflexivity. Qed.

Lemma register_lookup_in (ks : list key) (k : key) (p : gmap key future) :
  k ∈ ks -> register ks p !! k = Some Pending.
Proof.
  induction ks as [|x ks IH] using rev_ind; intros Hin.
  - inversion Hin.
  - rewrite register_snoc. destruct (decide (x = k)) as [->|Hne].
    + apply lookup_insert_eq.
    + rewrite lookup_insert_ne by exact Hne. apply IH.
      apply elem_of_app in Hin as [Hin|Hin]; [exact Hin|].
      apply list_elem_of_singleton in Hin. congruence.
Qed.

Lemma register_lookup_notin (ks : list key) (k : key) (p : gmap key future) :
  k ∉ ks -> register ks p !! k = p !! k.
Proof.
  induction ks as [|x ks IH] using rev_ind; intros Hnin; [reflexivity|].
  rewrite register_snoc, lookup_insert_ne.
  - apply IH. intros Hin. apply Hnin, elem_of_app. left. exact Hin.
  - intros ->. apply Hnin, elem_of_app. right. apply list_elem_of_singleton. reflexivity.
Qed.

Lemma acquire_keys_fresh (ks : list key) (p : gmap key future) :
  NoDup ks ->
  (forall k, k ∈ ks -> p !! k = None) ->
  acquire_keys ks p = (register ks p, inr tt).
Proof.
  revert p. induction ks as [|k ks IH]; intros p Hnd Hfree; [reflexivity|].
  inversion Hnd as [|? ? Hk Hnd']; subst.
  cbn [acquire_keys acquire]. rewrite (Hfree k) by (left).
  rewrite register_cons. apply IH; [exact Hnd'|].
  intros x Hx. rewrite lookup_insert_ne.
  - apply Hfree. right. exact Hx.
  - intros ->. contradiction.
Qed.

Lemma acquire_key_taken (k : key) (p : gmap key future) :
  is_Some (p !! k) ->
  acquire (NAtom k) p = (p, inl (AssertionError (AlreadyWaitingFor k))).
Proof. intros [f Hf]. cbn. rewrite Hf. reflexivity. Qed.

Lemma acquire_keys_stops (pre post : list key) (k : key) (p : gmap key future) :
  NoDup pre ->
  (forall x, x ∈ pre -> p !! x = None) ->
  k ∈ pre \/ is_Some (p !! k) ->
  acquire_keys (pre ++ k :: post) p =
    (register pre p, inl (AssertionError (AlreadyWaitingFor k))).
Proof.
  intros Hnd Hfree Hk. rewrite acquire_keys_app, (acquire_keys_fresh pre p Hnd Hfree).
  cbn [acquire_keys]. rewrite acquire_key_taken; [reflexivity|].
  destruct Hk as [Hin|Hsome].
  - rewrite (register_lookup_in _ _ _ Hin). eauto.
  - destruct (decide (k ∈ pre)) as [Hin|Hnin].
    + rewrite (register_lookup_in _ _ _ Hin). eauto.
    + rewrite (register_lookup_notin _ _ _ Hnin). exact Hsome.
Qed.

Lemma acquire_keys_taken (ks : list key) (k : key) (p : gmap key future) :
  k ∈ ks ->
  is_Some (p !! k) ->
  exists p' k', acquire_keys ks p = (p', inl (AssertionError (AlreadyWaitingFor k'))).
Proof.
  revert p. induction ks as [|x ks IH]; intros p Hin Hsome; [inversion Hin|].
  cbn [acquire_keys acquire]. destruct (p !! x) as [f|] eqn:Hx; [eauto|].
  apply IH.
  - apply elem_of_cons in Hin as [->|Hin]; [|exact Hin].
    rewrite Hx in Hsome. destruct Hsome; discriminate.
  - destruct (decide (x = k)) as [->|Hne].
    + rewrite lookup_insert_eq. eauto.
    + rewrite lookup_insert_ne by exact Hne. exact Hsome.
Qed.

(** C3 (as amended). A group acquire stops with the assertion at the
    first leaf that is already in the pool or repeats an earlier leaf; the
    leaves before it stay registered as pending, every other entry is as
    it was. There is no roll-back. *)
Theorem group_acquire_keeps_prefix (l : list name) (pre post : list key) (k : key)
    (p : gmap key future) :
  leaves (NTuple l) = pre ++ k :: post ->
  NoDup pre ->
  (forall x, x ∈ pre -> p !! x = None) ->
  k ∈ pre \/ is_Some (p !! k) ->
  acquire (NTuple l) p = (register pre p, inl (AssertionError (AlreadyWaitingFor k)))
  /\ (forall x, x ∈ pre -> register pre p !! x = Some Pending)
  /\ (forall x, x ∉ pre -> register pre p !! x = p !! x).
Proof.
  intros Hl Hnd Hfree Hk. split.
  - rewrite acquire_leaves, Hl, (acquire_keys_stops pre post k p Hnd Hfree Hk). reflexivity.
  - split; intros x Hx; [apply register_lookup_in | apply register_lookup_notin]; exact Hx.
Qed.

Lemma group_acquire_keeps_prefix_witness :
  let p0 : gmap key future := {[ (inl 2 : key) := Pending ]} in
  acquire (NTuple [NAtom (inl 1); NAtom (inl 2); NAtom (inl 3)]) p0
    = (register [inl 1] p0, inl (AssertionError (AlreadyWaitingFor (inl 2))))
  /\ register [inl 1] p0 !! (inl 1 : key) = Some Pending.
Proof.
  cbv zeta.
  destruct (group_acquire_keeps_prefix
              [NAtom (inl 1); NAtom (inl 2); NAtom (inl 3)] [inl 1] [inl 3] (inl 2)
              {[ (inl 2 : key) := Pending ]}) as (Hacq & Hin & _).
  - reflexivity.
  - apply NoDup_singleton.
  - intros x Hx. apply list_elem_of_singleton in Hx. subst x. vm_compute. reflexivity.
  - right. exists Pending. vm_compute. reflexivity.
  - split; [exact Hacq|]. apply Hin. apply list_elem_of_singleton. reflexivity.
Defined.

(** C3 as stated fails: with tag 2 pending, acquiring the group (1, 2)
    raises, yet tag 1, registered before the duplicate was met, is in the
    pool afterwards: the pool has changed. *)
Lemma group_acquire_leaks :
  let p0 : gmap key future := {[ (inl 2 : key) := Pending ]} in
  let r := acquire (NTuple [NAtom (inl 1); NAtom (inl 2)]) p0 in
  r.2 = inl (AssertionError (AlreadyWaitingFor (inl 2)))
  /\ p0 !! (inl 1 : key) = None
  /\ r.1 !! (inl 1 : key) = Some Pending
  /\ r.1 <> p0.
Proof.
  cbv zeta. split; [vm_compute; reflexivity|]. split; [vm_compute; reflexivity|].
  assert (H1 : (acquire (NTuple [NAtom (inl 1); NAtom (inl 2)])
                  ({[ (inl 2 : key) := Pending ]} : gmap key future)).1 !! (inl 1 : key)
               = Some Pending) by (vm_compute; reflexivity).
  split; [exact H1|]. intros Heq. rewrite Heq in H1. vm_compute in H1. discriminate.
Qed.

(** C6. A name all of whose leaves are distinct and free is acquired:
    the call returns its context and every leaf is registered as pending.
    An atomic name that has an entry is refused with the assertion, at
    once and without touching the pool; so is any name one of whose leaves
    has an entry, hence a second acquire of a name just acquired. *)
Theorem acquire_fails_fast :
  (forall (n : name) (p : gmap key future),
      NoDup (leaves n) ->
      (forall k, k ∈ leaves n -> p !! k = None) ->
      acquire n p = (register (leaves n) p, inr n)
      /\ (forall k, k ∈ leaves n -> register (leaves n) p !! k = Some Pending))
  /\ (forall (k : key) (p : gmap key future),
      is_Some (p !! k) ->
      acquire (NAtom k) p = (p, inl (AssertionError (AlreadyWaitingFor k))))
  /\ (forall (n : name) (k : key) (p : gmap key future),
      k ∈ leaves n ->
      is_Some (p !! k) ->
      exists p' k', acquire n p = (p', inl (AssertionError (AlreadyWaitingFor k'))))
  /\ (forall (k : key) (p : gmap key future),
      p !! k = None ->
      (acquire (NAtom k) p).2 = inr (NAtom k)
      /\ acquire (NAtom k) (acquire (NAtom k) p).1
         = ((acquire (NAtom k) p).1, inl (AssertionError (AlreadyWaitingFor k)))).
Proof.
  split; [|split; [|split]].
  - intros n p Hnd Hfree. rewrite acquire_leaves, (acquire_keys_fresh _ _ Hnd Hfree).
    split; [reflexivity|]. intros k Hk. apply register_lookup_in. exact Hk.
  - exact acquire_key_taken.
  - intros n k p Hin Hsome. rewrite acquire_leaves.
    destruct (acquire_keys_taken _ _ _ Hin Hsome) as (p' & k' & ->). eauto.
  - intros k p Hfree. cbn [acquire]. rewrite Hfree. cbn [fst snd].
    split; [reflexivity|]. rewrite lookup_insert_eq. reflexivity.
Qed.

Lemma acquire_fails_fast_witness :
  acquire (NAtom (inl 3)) ∅ = (register [inl 3] ∅, inr (NAtom (inl 3)))
  /\ acquire (NAtom (inl 3)) (acquire (NAtom (inl 3)) ∅).1
     = ((acquire (NAtom (inl 3)) ∅).1, inl (AssertionError (AlreadyWaitingFor (inl 3)))).
Proof.
  split.
  - refine (proj1 (proj1 acquire_fails_fast (NAtom (inl 3)) ∅ _ _)).
    + apply NoDup_singleton.
    + intros k _. apply lookup_empty.
  - refine (proj2 (proj2 (proj2 (proj2 acquire_fails_fast)) (inl 3) ∅ _)).
    apply lookup_empty.
Defined.

(** ** Notification subscription over a list of candidates *)

Lemma start_notify_loop_all_fail (client : nat -> key -> exn + unit)
    (l : list key) (errs : list exn) (i : nat) (exception : option exn) (tried : list key) :
  length errs = length l ->
  (forall j cs e, l !! j = Some cs -> errs !! j = Some e -> client (i + j)%nat cs = inl e) ->
  start_notify_loop client l i exception tried =
    (tried ++ l,
     inl (match last errs, exception with
          | Some e, _ => e
          | None, Some e => e
          | None, None => TypeError
          end)).
Proof.
  revert errs i exception tried.
  induction l as [|cs l IH]; intros [|e errs] i exception tried Hlen Hfail;
    try discriminate.
  - cbn. rewrite app_nil_r. reflexivity.
  - cbn [start_notify_loop].
    rewrite <- (Nat.add_0_r i) at 1. rewrite (Hfail 0%nat cs e) by reflexivity.
    rewrite (IH errs (S i) (Some e) (tried ++ [cs])).
    + rewrite <- app_assoc. cbn [app].
      destruct errs as [|e' errs]; [reflexivity|].
      replace (last (e :: e' :: errs)) with (last (e' :: errs)) by reflexivity.
      destruct (last (e' :: errs)) eqn:El; [reflexivity|].
      apply last_None in El. discriminate.
    + cbn in Hlen. lia.
    + intros j cs' e' Hl He. replace (S i + j)%nat with (i + S j)%nat by lia.
      apply Hfail; assumption.
Qed.

(** C7 (as amended). When subscribing fails on every candidate, every
    candidate has been tried, in order, and the exception raised is the
    one of the last candidate: the local variable [exception] is
    overwritten at each failure. *)
Theorem start_notify_raises_last_error (client : nat -> key -> exn + unit)
    (spec : char_specifier) (errs : list exn) (e : exn) :
  length errs = length (candidates spec) ->
  (forall i cs e', candidates spec !! i = Some cs -> errs !! i = Some e' ->
     client i cs = inl e') ->
  last errs = Some e ->
  start_notify client spec = (candidates spec, inl e).
Proof.
  intros Hlen Hfail Hlast. unfold start_notify.
  rewrite (start_notify_loop_all_fail client _ errs 0 None [] Hlen Hfail), Hlast.
  reflexivity.
Qed.

Lemma start_notify_raises_last_error_witness :
  start_notify (fun i _ => inl (TransportError i)) (Several [inl 10; inl 11; inl 12])
    = ([inl 10; inl 11; inl 12], inl (TransportError 2)).
Proof.
  apply (start_notify_raises_last_error (fun i _ => inl (TransportError i))
           (Several [inl 10; inl 11; inl 12])
           [TransportError 0; TransportError 1; TransportError 2]).
  - reflexivity.
  - intros [|[|[|i]]] cs e' Hcs He; cbn in He; try discriminate;
      injection He as <-; reflexivity.
  - reflexivity.
Defined.

(** C7 as stated fails: with two candidates that fail differently, what
    is raised is the second failure, not the first. *)
Lemma start_notify_not_first_error :
  let client : nat -> key -> exn + unit := fun i _ => inl (TransportError i) in
  client 0%nat (inl 10) = inl (TransportError 0)
  /\ client 1%nat (inl 11) = inl (TransportError 1)
  /\ start_notify client (Several [inl 10; inl 11])
     = ([inl 10; inl 11], inl (TransportError 1))
  /\ TransportError 1 <> TransportError 0.
Proof. cbv zeta. repeat split; try reflexivity. discriminate. Qed.

(** ** Scan-assisted connect *)

Section ConnectWithScannerFacts.

Variable address : string.
Variable psk : bool.
Variable discovered_devices : nat -> list string.
Variable client_connect : nat -> Q -> exn + unit.
Variable client_pair : nat -> exn + bool.

Local Abbreviation connect_client := (_connect_client psk client_connect client_pair).
Local Abbreviation attempt_ := (try_attempt address psk discovered_devices client_connect client_pair).
Local Abbreviation loop := (connect_loop address psk discovered_devices client_connect client_pair).
Local Abbreviation retries_ := (retries address psk discovered_devices client_connect client_pair).
Local Abbreviation connect_with_scanner :=
  (_connect_with_scanner address psk discovered_devices client_connect client_pair).

Lemma connect_client_head (k : nat) (t : Q) :
  exists evs, (connect_client k t).1 = ClientConnect t :: evs
              /\ attempts_made (ClientConnect t :: evs) = 0%nat.
Proof.
  unfold _connect_client. destruct (client_connect k t) as [e|[]].
  - exists []. split; reflexivity.
  - destruct psk; [destruct (client_pair k) as [e|b]|]; eexists; split; reflexivity.
Qed.

Lemma attempt_invisible (k : nat) (timeout : Q) :
  address ∉ discovered_devices k ->
  attempt_ k timeout =
    ([DiscoveredDevices (discovered_devices k)], inl (NotDiscovered (discovered_devices k))).
Proof.
  intros H. unfold try_attempt. rewrite bool_decide_eq_true_2 by exact H. reflexivity.
Qed.

Lemma attempt_visible (k : nat) (timeout : Q) :
  address ∈ discovered_devices k ->
  attempt_ k timeout =
    (DiscoveredDevices (discovered_devices k) :: (connect_client k (timeout / 2)%Q).1,
     (connect_client k (timeout / 2)%Q).2).
Proof.
  intros H. unfold try_attempt.
  rewrite bool_decide_eq_false_2 by (intros Hn; exact (Hn H)).
  destruct (connect_client k (timeout / 2)%Q); reflexivity.
Qed.

Lemma attempts_made_app (a b : list io) :
  attempts_made (a ++ b) = (attempts_made a + attempts_made b)%nat.
Proof. induction a as [|ev a IH]; cbn; [reflexivity | rewrite IH; lia]. Qed.

Lemma attempt_counts_once (k : nat) (timeout : Q) :
  attempts_made (attempt_ k timeout).1 = 1%nat.
Proof.
  destruct (decide (address ∈ discovered_devices k)) as [Hin|Hnin].
  - rewrite (attempt_visible k timeout Hin). cbn [fst].
    destruct (connect_client_head k (timeout / 2)%Q) as (evs & -> & Hz).
    change (attempts_made (DiscoveredDevices (discovered_devices k) :: ClientConnect (timeout / 2)%Q :: evs))
      with (1 + attempts_made (ClientConnect (timeout / 2)%Q :: evs))%nat.
    rewrite Hz. reflexivity.
  - rewrite (attempt_invisible k timeout Hnin). reflexivity.
Qed.

Lemma loop_retries (timeout : Q) (n : nat) :
  forall (fuel from : nat) (tr : list io),
    (from + n <= 8)%nat ->
    (forall k, (from <= k < from + n)%nat -> exists e, (attempt_ k timeout).2 = inl e) ->
    loop (n + fuel) from timeout tr = loop fuel (from + n) timeout (tr ++ retries_ from n timeout).
Proof.
  induction n as [|n IH]; intros fuel from tr Hle Hfail.
  - cbn [retries]. rewrite Nat.add_0_r, app_nil_r. reflexivity.
  - destruct (Hfail from ltac:(lia)) as [e He].
    cbn [Nat.add connect_loop retries].
    destruct (attempt_ from timeout) as [evs r]. cbn [fst snd] in He |- *. subst r.
    assert (Hlt : (from <? 8)%nat = true) by (apply Nat.ltb_lt; lia).
    rewrite Hlt, (IH fuel (from + 1)%nat).
    + replace (from + 1 + n)%nat with (from + S n)%nat by lia.
      replace (from + 1)%nat with (S from) by lia.
      rewrite <- !app_assoc. reflexivity.
    + lia.
    + intros k Hk. apply Hfail. lia.
Qed.

Lemma loop_total (timeout : Q) (fuel : nat) :
  forall (from : nat) (tr : list io),
    (from <= 8)%nat ->
    (8 - from < fuel)%nat ->
    exists tr' r,
      loop fuel from timeout tr = Some (tr', r)
      /\ (attempts_made tr' <= attempts_made tr + (9 - from))%nat.
Proof.
  induction fuel as [|fuel IH]; intros from tr Hfrom Hfuel; [lia|].
  cbn [connect_loop]. pose proof (attempt_counts_once from timeout) as Hone.
  destruct (attempt_ from timeout) as [evs [e|[]]]; cbn [fst] in Hone.
  - destruct (Nat.ltb_spec from 8) as [Hlt|Hge].
    + destruct (IH (from + 1)%nat
                  (tr ++ evs ++ [ClientDisconnect; Sleep (0.2 * 1.5 ^ Z.of_nat from)%Q]))
        as (tr' & r & Hrun & Hcount); [lia | lia |].
      exists tr', r. split; [exact Hrun|].
      rewrite !attempts_made_app, Hone in Hcount.
      cbn [attempts_made is_attempt] in Hcount. lia.
    + eexists _, _. split; [reflexivity|].
      rewrite !attempts_made_app, Hone. cbn [attempts_made is_attempt]. lia.
  - eexists _, _. split; [reflexivity|].
    rewrite !attempts_made_app, Hone. cbn [attempts_made is_attempt]. lia.
Qed.

(** C8. Each attempt first reads the scanner's discovered devices; an
    absent address is a failure of the attempt without any connect, a
    present one leads to a connect with half the timeout. After [n < 8]
    failed attempts and a successful one, and after 8 failed attempts, the
    calls made are those of the attempts in order, attempt [k] (if not the
    last) followed by a disconnect and a sleep of [0.2 * 1.5 ^ k]; the 8th
    failure is followed by the disconnect, the scanner is stopped and that
    attempt's exception is raised. In every world the loop ends within 8
    iterations and at most 8 attempts are made. *)
Theorem connect_with_scanner_schedule (timeout : Q) (fuel : nat) :
  (8 <= fuel)%nat ->
  (forall k,
      (address ∉ discovered_devices k ->
         attempt_ k timeout =
           ([DiscoveredDevices (discovered_devices k)],
            inl (NotDiscovered (discovered_devices k))))
      /\ (address ∈ discovered_devices k ->
         exists evs,
           (attempt_ k timeout).1 =
             DiscoveredDevices (discovered_devices k)
               :: ClientConnect (timeout / 2)%Q :: evs
           /\ attempts_made evs = 0%nat))
  /\ (forall n,
      (n < 8)%nat ->
      (forall k, (1 <= k <= n)%nat -> exists e, (attempt_ k timeout).2 = inl e) ->
      (attempt_ (S n) timeout).2 = inr tt ->
      connect_with_scanner fuel timeout =
        Some ([ScannerStart] ++ retries_ 1 n timeout
                ++ (attempt_ (S n) timeout).1 ++ [ScannerStop], inr tt))
  /\ (forall e,
      (forall k, (1 <= k <= 7)%nat -> exists e', (attempt_ k timeout).2 = inl e') ->
      (attempt_ 8 timeout).2 = inl e ->
      connect_with_scanner fuel timeout =
        Some ([ScannerStart] ++ retries_ 1 7 timeout
                ++ (attempt_ 8 timeout).1 ++ [ClientDisconnect; ScannerStop], inl e))
  /\ (exists tr r,
      connect_with_scanner fuel timeout = Some (tr, r)
      /\ (attempts_made tr <= 8)%nat).
Proof.
  intros Hfuel. split; [|split; [|split]].
  - intros k. split; [apply attempt_invisible|].
    intros Hin. rewrite (attempt_visible k timeout Hin). cbn [fst].
    destruct (connect_client_head k (timeout / 2)%Q) as (evs & -> & Hz).
    exists evs. split; [reflexivity | exact Hz].
  - intros n Hn Hfail Hok. unfold _connect_with_scanner.
    replace fuel with (n + S (fuel - S n))%nat by lia.
    rewrite (loop_retries timeout n) by (try lia; intros k Hk; apply Hfail; lia).
    cbn [connect_loop Nat.add].
    destruct (attempt_ (S n) timeout) as [evs r]. cbn [fst snd] in Hok |- *. subst r.
    rewrite <- !app_assoc. reflexivity.
  - intros e Hfail Hlast. unfold _connect_with_scanner.
    replace fuel with (7 + S (fuel - 8))%nat by lia.
    rewrite (loop_retries timeout 7) by (try lia; intros k Hk; apply Hfail; lia).
    cbn [connect_loop Nat.add].
    destruct (attempt_ 8 timeout) as [evs r]. cbn [fst snd] in Hlast |- *. subst r.
    change (8 <? 8)%nat with false. cbv iota.
    rewrite <- !app_assoc. reflexivity.
  - unfold _connect_with_scanner.
    destruct (loop_total timeout fuel 1 [ScannerStart]) as (tr & r & Hrun & Hcount);
      [lia | lia |].
    exists tr, r. split; [exact Hrun|]. cbn [attempts_made is_attempt] in Hcount. lia.
Qed.

End ConnectWithScannerFacts.

Lemma connect_with_scanner_schedule_witness :
  let seen := fun k : nat => if (k <? 3)%nat then [] else ["C8:47:8C:E4:54:99"%string] in
  let connect := fun (k : nat) (_ : Q) =>
                   if (k <? 5)%nat then inl (TransportError k) else inr tt in
  let pair := fun _ : nat => inr true in
  _connect_with_scanner "C8:47:8C:E4:54:99" false seen connect pair 8 20
    = Some ([ScannerStart;
             DiscoveredDevices []; ClientDisconnect; Sleep (0.2 * 1.5 ^ 1)%Q;
             DiscoveredDevices []; ClientDisconnect; Sleep (0.2 * 1.5 ^ 2)%Q;
             DiscoveredDevices ["C8:47:8C:E4:54:99"%string]; ClientConnect (20 / 2)%Q;
             ClientDisconnect; Sleep (0.2 * 1.5 ^ 3)%Q;
             DiscoveredDevices ["C8:47:8C:E4:54:99"%string]; ClientConnect (20 / 2)%Q;
             ClientDisconnect; Sleep (0.2 * 1.5 ^ 4)%Q;
             DiscoveredDevices ["C8:47:8C:E4:54:99"%string]; ClientConnect (20 / 2)%Q;
             ScannerStop], inr tt)
  /\ _connect_with_scanner "C8:47:8C:E4:54:99" false (fun _ => []) connect pair 8 20
    = Some ([ScannerStart;
             DiscoveredDevices []; ClientDisconnect; Sleep (0.2 * 1.5 ^ 1)%Q;
             DiscoveredDevices []; ClientDisconnect; Sleep (0.2 * 1.5 ^ 2)%Q;
             DiscoveredDevices []; ClientDisconnect; Sleep (0.2 * 1.5 ^ 3)%Q;
             DiscoveredDevices []; ClientDisconnect; Sleep (0.2 * 1.5 ^ 4)%Q;
             DiscoveredDevices []; ClientDisconnect; Sleep (0.2 * 1.5 ^ 5)%Q;
             DiscoveredDevices []; ClientDisconnect; Sleep (0.2 * 1.5 ^ 6)%Q;
             DiscoveredDevices []; ClientDisconnect; Sleep (0.2 * 1.5 ^ 7)%Q;
             DiscoveredDevices []; ClientDisconnect; ScannerStop],
            inl (NotDiscovered [])).
Proof.
  cbv zeta. split.
  - refine (proj1 (proj2 (connect_with_scanner_schedule _ _ _ _ _ 20 8 _)) 4%nat _ _ _).
    + lia.
    + lia.
    + intros k Hk.
      assert (Hcases : k = 1%nat \/ k = 2%nat \/ k = 3%nat \/ k = 4%nat) by lia.
      destruct Hcases as [-> | [-> | [-> | ->]]]; eexists; vm_compute; reflexivity.
    + vm_compute. reflexivity.
  - refine (proj1 (proj2 (proj2 (connect_with_scanner_schedule _ _ _ _ _ 20 8 _)))
              (NotDiscovered []) _ _).
    + lia.
    + intros k Hk. exists (NotDiscovered []). reflexivity.
    + reflexivity.
Defined.

(** * Further properties of the code *)

(** ** The checksum *)

Lemma sum_insert (l : bytes) (i : nat) (b b' : Z) :
  l !! i = Some b ->
  foldr Z.add 0 (<[i := b']> l) = foldr Z.add 0 l - b + b'.
Proof.
  revert i. induction l as [|x l IH]; intros [|i] Hl; try discriminate.
  - injection Hl as ->. cbn -[Z.add Z.sub]. lia.
  - cbn -[Z.add Z.sub] in Hl |- *.
    transitivity (x + (foldr Z.add 0 l - b + b')); [f_equal; exact (IH i Hl) | lia].
Qed.

Lemma is_byte_range (b : Z) : is_byte b = true <-> 0 <= b < 256.
Proof.
  unfold is_byte. rewrite andb_true_iff, Z.leb_le, Z.ltb_lt. reflexivity.
Qed.

Lemma sum_mod_insert_ne (l : bytes) (i : nat) (b b' : Z) :
  l !! i = Some b ->
  is_byte b = true ->
  is_byte b' = true ->
  b <> b' ->
  foldr Z.add 0 (<[i := b']> l) mod 256 <> foldr Z.add 0 l mod 256.
Proof.
  intros Hl Hb Hb' Hne. rewrite (sum_insert l i b b' Hl).
  apply is_byte_range in Hb, Hb'. intros Heq.
  set (t := foldr Z.add 0 l) in *.
  assert (Hd : (b' - b) mod 256 = 0).
  { replace (b' - b) with ((t - b + b') - t) by lia.
    rewrite Zminus_mod, Heq, Z.sub_diag. reflexivity. }
  apply Z.mod_divide in Hd; [|lia]. destruct Hd as [q Hq].
  assert (q = 0) by lia. lia.
Qed.

(** X1. Changing one byte of a byte string to another byte value always
    changes its checksum. *)
Theorem calc_crc_detects_single_byte (l : bytes) (i : nat) (b b' : Z) :
  l !! i = Some b ->
  is_byte b = true ->
  is_byte b' = true ->
  b <> b' ->
  calc_crc (<[i := b']> l) <> calc_crc l.
Proof.
  intros Hl Hb Hb' Hne. rewrite !calc_crc_mod.
  apply (sum_mod_insert_ne l i b b'); assumption.
Qed.

Lemma calc_crc_detects_single_byte_witness :
  calc_crc (<[2%nat := 7]> [1; 2; 3; 4]) <> calc_crc [1; 2; 3; 4].
Proof.
  apply (calc_crc_detects_single_byte [1; 2; 3; 4] 2 3 7).
  - reflexivity.
  - reflexivity.
  - reflexivity.
  - lia.
Defined.

(** X2. The checksum does not depend on the order of the bytes: any
    reordering of a byte string has the same checksum. *)
Theorem calc_crc_ignores_order (l l' : bytes) :
  l ≡ₚ l' -> calc_crc l = calc_crc l'.
Proof.
  intros Hp. unfold calc_crc. f_equal.
  induction Hp as [|x l l' _ IH|x y l|l1 l2 l3 _ IH1 _ IH2]; cbn -[Z.add]; lia.
Qed.

Lemma calc_crc_ignores_order_witness :
  calc_crc [85; 170; 235; 144] = calc_crc [170; 85; 144; 235].
Proof.
  apply calc_crc_ignores_order.
  apply (bool_decide_unpack _). vm_compute. reflexivity.
Defined.

(** ** Outbound frame: failure cases and decoding *)

Lemma jk_command_cases (address : Z) (value : list Z) :
  _jk_command address value =
    if negb (length value <=? 13)%nat then inl (AssertionError (ValTooLong value))
    else if is_byte address && forallb is_byte value
         then inr ([170; 85; 144; 235; address; Z.of_nat (length value)]
                     ++ value ++ repeat 0 (13 - length value)%nat
                     ++ [foldr Z.add 0
                           ([170; 85; 144; 235; address; Z.of_nat (length value)]
                              ++ value ++ repeat 0 (13 - length value)%nat) mod 256])
         else inl ValueError.
Proof.
  destruct (length value <=? 13)%nat eqn:Hn; cbn [negb].
  2:{ unfold _jk_command. rewrite Hn. reflexivity. }
  apply Nat.leb_le in Hn.
  destruct (is_byte address) eqn:Ha; cbn [andb].
  - destruct (forallb is_byte value) eqn:Hv.
    + destruct (jk_command_ok address value Ha Hv Hn) as [-> _].
      rewrite <- !app_assoc. reflexivity.
    + unfold _jk_command. apply Nat.leb_le in Hn. rewrite Hn. cbn [negb].
      assert (Hn_byte : is_byte (Z.of_nat (length value)) = true).
      { apply Nat.leb_le in Hn. apply is_byte_range. lia. }
      rewrite (to_bytes_ok [170; 85; 144; 235; address; Z.of_nat (length value)]).
      2:{ simpl. rewrite Ha, Hn_byte. reflexivity. }
      unfold ebind at 1. unfold to_bytes at 1. rewrite Hv. reflexivity.
  - unfold _jk_command. apply Nat.leb_le in Hn. rewrite Hn. cbn [negb].
    unfold to_bytes at 1. cbn [forallb]. rewrite Ha. reflexivity.
Qed.

(** X3. [_jk_command] raises [ValueError] exactly when the payload has
    at most 13 elements and the target id or some payload element is not
    a byte; the length assertion comes first. *)
Theorem jk_command_value_error (address : Z) (value : list Z) :
  _jk_command address value = inl ValueError
  <-> (length value <= 13)%nat
      /\ (is_byte address = false \/ forallb is_byte value = false).
Proof.
  rewrite jk_command_cases.
  destruct (Nat.leb_spec (length value) 13) as [Hn|Hn]; cbn [negb].
  - destruct (is_byte address), (forallb is_byte value); cbn [andb]; split;
      try discriminate; try (intros _; split; [exact Hn | auto]); try reflexivity.
    all: intros [_ [H|H]]; discriminate.
  - split; [discriminate | intros [H _]; lia].
Qed.

(** X4. A frame can be read back: byte 4 is the target id, byte 5 the
    payload length, the payload starts at byte 6; so two calls that return
    the same frame had the same arguments. *)
Theorem jk_command_decodes (address : Z) (value : list Z) (frame : bytes) :
  _jk_command address value = inr frame ->
  frame !! 4%nat = Some address
  /\ frame !! 5%nat = Some (Z.of_nat (length value))
  /\ take (length value) (drop 6 frame) = value
  /\ (forall address' value',
        _jk_command address' value' = inr frame ->
        address' = address /\ value' = value).
Proof.
  assert (Hdec : forall a v f, _jk_command a v = inr f ->
            f !! 4%nat = Some a /\ f !! 5%nat = Some (Z.of_nat (length v))
            /\ take (length v) (drop 6 f) = v).
  { intros a v f. rewrite jk_command_cases. intros H.
    destruct (negb (length v <=? 13)%nat); [discriminate|].
    destruct (is_byte a && forallb is_byte v); [|discriminate].
    cbv beta iota in H. injection H as <-. split; [reflexivity|]. split; [reflexivity|].
    cbn [app drop]. apply take_app_length. }
  intros Hf. destruct (Hdec _ _ _ Hf) as (H4 & H5 & Hv).
  repeat (split; [assumption|]).
  intros a' v' Hf'. destruct (Hdec _ _ _ Hf') as (H4' & H5' & Hv').
  split; [congruence|].
  assert (length v' = length value) by (apply Nat2Z.inj; congruence).
  congruence.
Qed.

Lemma jk_command_decodes_witness :
  [170; 85; 144; 235; 151; 2; 9; 8; 0; 0; 0; 0; 0; 0; 0; 0; 0; 0; 0; 36] !! 4%nat
    = Some 151
  /\ take (length [9; 8])
       (drop 6 [170; 85; 144; 235; 151; 2; 9; 8; 0; 0; 0; 0; 0; 0; 0; 0; 0; 0; 0; 36])
     = [9; 8].
Proof.
  destruct (jk_command_decodes 151 [9; 8]
              [170; 85; 144; 235; 151; 2; 9; 8; 0; 0; 0; 0; 0; 0; 0; 0; 0; 0; 0; 36]
              eq_refl) as (H4 & _ & Hv & _).
  split; [exact H4 | exact Hv].
Defined.

(** ** What a call of the handler can leave behind *)

Lemma crc_verdict_Some_length (b : bytes) (v : bool) :
  crc_verdict b = Some v -> (MIN_RESPONSE_SIZE <= length b)%nat.
Proof.
  unfold crc_verdict, MIN_RESPONSE_SIZE.
  destruct (b !! 299%nat) eqn:E; [|discriminate].
  intros _. apply lookup_lt_Some in E. lia.
Qed.

Lemma crc_verdict_None_length (b : bytes) :
  crc_verdict b = None -> (length b < MIN_RESPONSE_SIZE)%nat.
Proof.
  unfold crc_verdict, MIN_RESPONSE_SIZE.
  destruct (b !! 299%nat) eqn:E; [discriminate|].
  intros _. apply lookup_ge_None in E. lia.
Qed.

Lemma long_has_type (b : bytes) :
  (MIN_RESPONSE_SIZE <= length b)%nat -> exists t, b !! 4%nat = Some t.
Proof.
  unfold MIN_RESPONSE_SIZE. intros H. apply lookup_lt_is_Some_2. lia.
Qed.

Lemma decode_result (b : bytes) (t : Z) (s : JKBt) :
  b !! 4%nat = Some t ->
  (_decode_msg b s).2 = inr tt \/ (_decode_msg b s).2 = inl InvalidStateError.
Proof.
  intros Ht. rewrite (decode_unfold b t s Ht). cbv zeta.
  destruct (_fetch_futures s !! inl t) as [[| |]|]; destruct (_callbacks s !! t);
    cbn [snd]; auto.
Qed.

(** The three ways a decode attempt on buffer [b] can end. *)
Lemma finish_decode_outcome (b : bytes) (s : JKBt) :
  (MIN_RESPONSE_SIZE <= length b)%nat ->
  _buffer s = b ->
  ((finish (_decode_msg b s)).2 = inr tt
   /\ _buffer (finish (_decode_msg b s)).1 = [])
  \/ ((finish (_decode_msg b s)).2 = inl InvalidStateError
      /\ _buffer (finish (_decode_msg b s)).1 = b).
Proof.
  intros Hlen Hb. destruct (long_has_type b Hlen) as [t Ht].
  destruct (decode_effects b t s Ht) as (_ & _ & Hbuf & _).
  destruct (decode_result b t s Ht) as [Hr|Hr].
  - left. apply finish_ok. exact Hr.
  - right. rewrite (finish_raise _ _ Hr), Hr, Hbuf. split; [reflexivity | exact Hb].
Qed.

(** X5. A call of [_notification_handler] ends in one of three ways: it
    returns, with fewer than 300 bytes in the buffer; it raises
    [IndexError], with fewer than 300 bytes in the buffer; or it raises
    [InvalidStateError], and then the buffer still holds the message, of
    at least 300 bytes, that was just handed to [_decode_msg]. No other
    exception leaves the handler. *)
Theorem handler_outcomes (data : bytes) (s : JKBt) :
  ((_notification_handler data s).2 = inr tt
   /\ (length (_buffer (_notification_handler data s).1) < MIN_RESPONSE_SIZE)%nat)
  \/ ((_notification_handler data s).2 = inl IndexError
      /\ (length (_buffer (_notification_handler data s).1) < MIN_RESPONSE_SIZE)%nat)
  \/ ((_notification_handler data s).2 = inl InvalidStateError
      /\ (MIN_RESPONSE_SIZE <= length (_buffer (_notification_handler data s).1))%nat
      /\ last (accepted (calls (_notification_handler data s).1))
         = Some (_buffer (_notification_handler data s).1)).
Proof.
  assert (Hzero : (0 < MIN_RESPONSE_SIZE)%nat) by (unfold MIN_RESPONSE_SIZE; lia).
  assert (Hdec : forall b s0,
            (MIN_RESPONSE_SIZE <= length b)%nat -> _buffer s0 = b ->
            let r := finish (_decode_msg b s0) in
            (r.2 = inr tt /\ (length (_buffer r.1) < MIN_RESPONSE_SIZE)%nat)
            \/ (r.2 = inl IndexError /\ (length (_buffer r.1) < MIN_RESPONSE_SIZE)%nat)
            \/ (r.2 = inl InvalidStateError
                /\ (MIN_RESPONSE_SIZE <= length (_buffer r.1))%nat
                /\ last (accepted (calls r.1)) = Some (_buffer r.1))).
  { intros b s0 Hlen Hb. cbv zeta.
    destruct (finish_decode_outcome b s0 Hlen Hb) as [[Hr Hbuf]|[Hr Hbuf]].
    - left. rewrite Hr, Hbuf. split; [reflexivity | exact Hzero].
    - right. right. rewrite Hr, Hbuf. split; [reflexivity|]. split; [exact Hlen|].
      destruct (long_has_type b Hlen) as [t Ht].
      destruct (decode_effects b t s0 Ht) as (Hacc & _).
      rewrite finish_fst_calls, Hacc. apply last_snoc. }
  rewrite handler_unfold. cbv zeta.
  destruct (Nat.leb_spec MIN_RESPONSE_SIZE (length (incoming data s))) as [Hlen|Hlen].
  2:{ left. cbn. split; [reflexivity | exact Hlen]. }
  destruct (crc_verdict (incoming data s)) as [[|]|] eqn:Hv.
  - apply Hdec; [exact Hlen | reflexivity].
  - destruct (index HEADER (incoming data s)) as [idx|].
    2:{ left. cbn. split; [reflexivity | exact Hzero]. }
    destruct (crc_verdict (drop idx (incoming data s))) as [[|]|] eqn:Hv2.
    + apply Hdec; [exact (crc_verdict_Some_length _ _ Hv2) | reflexivity].
    + left. cbn. split; [reflexivity | exact Hzero].
    + right. left. cbn [fst snd checked record set_buffer _buffer].
      split; [reflexivity | exact (crc_verdict_None_length _ Hv2)].
  - apply crc_verdict_None_length in Hv. lia.
Qed.

(** ** One fragment that is a whole message *)

Lemma incoming_header (data : bytes) (s : JKBt) :
  take 4 data = HEADER -> incoming data s = data.
Proof.
  intros H. unfold incoming. apply bytes_eqb_eq in H. rewrite H. reflexivity.
Qed.

(** X6. A valid message that arrives as one fragment is accepted
    whatever the buffer held before: it is handed to [_decode_msg] and
    stored in the response table under its type. With no future under
    that type the pool is left alone, a pending future is resolved with
    the message; in both cases the call returns and the buffer is empty. *)
Theorem valid_fragment_always_accepted (msg : bytes) (t : Z) (s : JKBt) :
  valid_message msg ->
  msg !! 4%nat = Some t ->
  accepted (calls (_notification_handler msg s).1) = accepted (calls s) ++ [msg]
  /\ _resp_table (_notification_handler msg s).1 = <[t := msg]> (_resp_table s)
  /\ (_fetch_futures s !! (inl t : key) = None ->
      (_notification_handler msg s).2 = inr tt
      /\ _buffer (_notification_handler msg s).1 = []
      /\ _fetch_futures (_notification_handler msg s).1 = _fetch_futures s)
  /\ (_fetch_futures s !! (inl t : key) = Some Pending ->
      (_notification_handler msg s).2 = inr tt
      /\ _buffer (_notification_handler msg s).1 = []
      /\ _fetch_futures (_notification_handler msg s).1
         = <[inl t := Done msg]> (_fetch_futures s)).
Proof.
  intros Hv Ht.
  assert (Hinc : incoming msg s = msg) by (apply incoming_header, Hv).
  split; [exact (handler_valid_accepted msg msg s Hinc Hv)|].
  rewrite (handler_valid msg msg s Hinc Hv), (decode_unfold msg t _ Ht).
  destruct s as [buf tbl futs cbs cs]. unfold checked. cbv zeta. run_jk.
  split.
  - destruct (futs !! inl t) as [[| |]|]; destruct (cbs !! t); reflexivity.
  - split; intros ->; destruct (cbs !! t); repeat split.
Qed.

Lemma valid_fragment_always_accepted_witness :
  accepted (calls (_notification_handler sample_message
                     (set_buffer [1; 2; 3] new_JKBt)).1) = [sample_message]
  /\ _resp_table (_notification_handler sample_message
                    (set_buffer [1; 2; 3] new_JKBt)).1 = {[ 3 := sample_message ]}.
Proof.
  destruct (valid_fragment_always_accepted sample_message 3
              (set_buffer [1; 2; 3] new_JKBt)) as (Hacc & Htbl & _).
  - exact sample_message_valid.
  - reflexivity.
  - split; [exact Hacc | exact Htbl].
Defined.

(** ** A corrupted message *)

Lemma corrupted_not_ok (msg : bytes) (i : nat) (b b' : Z) :
  checksum_ok msg ->
  (i < 299)%nat ->
  msg !! i = Some b ->
  is_byte b = true ->
  is_byte b' = true ->
  b <> b' ->
  ~ checksum_ok (<[i := b']> msg).
Proof.
  unfold checksum_ok. intros Hok Hi Hl Hb Hb' Hne Hbad.
  rewrite list_lookup_insert_ne in Hbad by lia.
  rewrite Hok in Hbad. injection Hbad as Hbad.
  rewrite take_insert_lt in Hbad by lia.
  symmetry in Hbad. revert Hbad.
  apply (sum_mod_insert_ne (take 299 msg) i b b'); try assumption.
  rewrite lookup_take_lt by lia. exact Hl.
Qed.

Lemma handler_rejects (bad : bytes) (s : JKBt) :
  take 4 bad = HEADER ->
  (MIN_RESPONSE_SIZE <= length bad)%nat ->
  ~ checksum_ok bad ->
  _notification_handler bad s =
    (set_buffer [] (checked bad (Some false) (checked bad (Some false) s)), inr tt).
Proof.
  intros Hhd Hlen Hbad. rewrite handler_unfold, (incoming_header bad s Hhd). cbv zeta.
  pose proof (crc_verdict_bad _ Hlen Hbad) as Hv. apply Nat.leb_le in Hlen.
  rewrite Hlen, Hv, (index_header_start _ Hhd), drop_0, Hv. reflexivity.
Qed.

(** X7. A valid message in which one byte between the header and the
    checksum byte has been changed to another byte value, arriving as one
    fragment, is not accepted: the call returns, the buffer is empty, the
    response table and the futures are as before. A valid message that
    arrives next, as one fragment, is accepted. *)
Theorem corrupted_message_rejected (msg : bytes) (i : nat) (b b' : Z) (s : JKBt) :
  valid_message msg ->
  (4 <= i < 299)%nat ->
  msg !! i = Some b ->
  is_byte b = true ->
  is_byte b' = true ->
  b <> b' ->
  (_notification_handler (<[i := b']> msg) s).2 = inr tt
  /\ _buffer (_notification_handler (<[i := b']> msg) s).1 = []
  /\ accepted (calls (_notification_handler (<[i := b']> msg) s).1) = accepted (calls s)
  /\ _resp_table (_notification_handler (<[i := b']> msg) s).1 = _resp_table s
  /\ _fetch_futures (_notification_handler (<[i := b']> msg) s).1 = _fetch_futures s
  /\ (forall good, valid_message good ->
        accepted (calls (feed [<[i := b']> msg; good] s).1)
          = accepted (calls s) ++ [good]).
Proof.
  intros (Hhd & Hlen & Hok) Hi Hl Hb Hb' Hne.
  assert (Hrej : _notification_handler (<[i := b']> msg) s =
            (set_buffer [] (checked (<[i := b']> msg) (Some false)
                              (checked (<[i := b']> msg) (Some false) s)), inr tt)).
  { apply handler_rejects.
    - rewrite take_insert_ge by lia. exact Hhd.
    - rewrite length_insert. exact Hlen.
    - apply (corrupted_not_ok msg i b b'); try assumption. lia. }
  assert (Hacc : accepted (calls (_notification_handler (<[i := b']> msg) s).1)
                 = accepted (calls s)).
  { rewrite Hrej. cbn [fst]. change (calls (set_buffer [] ?x)) with (calls x).
    rewrite !accepted_checked. reflexivity. }
  split; [rewrite Hrej; reflexivity|]. split; [rewrite Hrej; reflexivity|].
  split; [exact Hacc|]. split; [rewrite Hrej; reflexivity|].
  split; [rewrite Hrej; reflexivity|].
  intros good Hgood. cbn [feed].
  destruct (_notification_handler (<[i := b']> msg) s) as [s1 r1]. cbn [fst] in Hacc.
  pose proof (handler_valid_accepted good good s1
                (incoming_header good s1 (proj1 Hgood)) Hgood) as Hacc2.
  destruct (_notification_handler good s1) as [s2 r2]. cbn [fst] in *.
  rewrite Hacc2, Hacc. reflexivity.
Qed.

Lemma corrupted_message_rejected_witness :
  (_notification_handler (<[10%nat := 1]> sample_message) new_JKBt).2 = inr tt
  /\ accepted (calls (feed [<[10%nat := 1]> sample_message; sample_message] new_JKBt).1)
     = [sample_message].
Proof.
  destruct (corrupted_message_rejected sample_message 10 0 1 new_JKBt)
    as (Hr & _ & _ & _ & _ & Hnext).
  - exact sample_message_valid.
  - lia.
  - reflexivity.
  - reflexivity.
  - reflexivity.
  - lia.
  - split; [exact Hr | exact (Hnext sample_message sample_message_valid)].
Defined.

(** ** FuturesPool: remove, and the life of an entry *)

Lemma delete_keys_app (a b : list key) (p : gmap key future) :
  delete_keys (a ++ b) p = delete_keys b (delete_keys a p).
Proof. unfold delete_keys. apply foldl_app. Qed.

Lemma remove_leaves (n : name) (p : gmap key future) :
  remove n p = delete_keys (leaves n) p.
Proof.
  revert p. induction n as [k|l IH] using name_ind_nested; intros p; [reflexivity|].
  cbn [remove leaves].
  induction IH as [|x l Hx _ IHl] in p |- *; [reflexivity|].
  rewrite delete_keys_app, <- Hx. apply IHl.
Qed.

Lemma delete_keys_lookup (ks : list key) (k : key) (p : gmap key future) :
  delete_keys ks p !! k = if decide (k ∈ ks) then None else p !! k.
Proof.
  revert p. induction ks as [|x ks IH]; intros p.
  - cbn. destruct (decide (k ∈ [])) as [H|_]; [inversion H | reflexivity].
  - change (delete_keys (x :: ks) p) with (delete_keys ks (delete x p)). rewrite IH.
    destruct (decide (k ∈ ks)) as [Hin|Hnin].
    + rewrite decide_True by (right; exact Hin). reflexivity.
    + destruct (decide (x = k)) as [->|Hne].
      * rewrite decide_True by left. apply lookup_delete_eq.
      * rewrite decide_False.
        { apply lookup_delete_ne. exact Hne. }
        intros Hin. apply elem_of_cons in Hin as [->|Hin]; contradiction.
Qed.

(** X8. [remove] never fails: afterwards no leaf of the name has an
    entry, whether it had one or not, and every other entry is as it was. *)
Theorem remove_lookup (n : name) (k : key) (p : gmap key future) :
  (k ∈ leaves n -> remove n p !! k = None)
  /\ (k ∉ leaves n -> remove n p !! k = p !! k).
Proof.
  rewrite remove_leaves, delete_keys_lookup.
  split; intros H; [rewrite decide_True | rewrite decide_False]; auto.
Qed.

Lemma remove_lookup_witness :
  remove (NTuple [NAtom (inl 1); NAtom (inl 2)])
    ({[ (inl 2 : key) := Pending; (inl 5 : key) := Cancelled ]} : gmap key future)
    !! (inl 2 : key) = None.
Proof.
  apply (proj1 (remove_lookup (NTuple [NAtom (inl 1); NAtom (inl 2)]) (inl 2) _)).
  cbn. right. left.
Defined.

(** X9. Acquiring a name whose leaves are distinct and free and then
    removing it gives back the pool as it was. *)
Theorem acquire_remove_roundtrip (n : name) (p : gmap key future) :
  NoDup (leaves n) ->
  (forall k, k ∈ leaves n -> p !! k = None) ->
  remove n (acquire n p).1 = p.
Proof.
  intros Hnd Hfree.
  rewrite acquire_leaves, (acquire_keys_fresh _ _ Hnd Hfree). cbn [fst].
  apply map_eq. intros k. rewrite remove_leaves, delete_keys_lookup.
  destruct (decide (k ∈ leaves n)) as [Hin|Hnin].
  - symmetry. apply Hfree. exact Hin.
  - apply register_lookup_notin. exact Hnin.
Qed.

Lemma acquire_remove_roundtrip_witness :
  let p : gmap key future := {[ (inl 9 : key) := Pending ]} in
  remove (NTuple [NAtom (inl 1); NAtom (inr "b"%string)])
    (acquire (NTuple [NAtom (inl 1); NAtom (inr "b"%string)]) p).1 = p.
Proof.
  cbv zeta. apply acquire_remove_roundtrip.
  - apply (bool_decide_unpack _). vm_compute. reflexivity.
  - intros k Hk. cbn in Hk.
    apply elem_of_cons in Hk as [->|Hk]; [vm_compute; reflexivity|].
    apply list_elem_of_singleton in Hk as ->. vm_compute. reflexivity.
Defined.

(** X10. [set_result] neither adds nor removes an entry and touches no
    name but its own; resolving a freshly acquired name and removing it
    gives back the pool as it was, so the name can be acquired again. *)
Theorem set_result_keeps_entries (n : name) (value : bytes) (p : gmap key future) :
  (forall k, is_Some ((set_result n value p).1 !! k) <-> is_Some (p !! k))
  /\ (forall k, n <> NAtom k -> (set_result n value p).1 !! k = p !! k)
  /\ (forall k, n = NAtom k -> p !! k = None ->
        let p1 := (acquire n p).1 in
        (set_result n value p1).1 !! k = Some (Done value)
        /\ remove n (set_result n value p1).1 = p
        /\ (acquire n (remove n (set_result n value p1).1)).2 = inr n).
Proof.
  split; [|split].
  - intros k. destruct n as [k0|l]; [|reflexivity]. unfold set_result.
    destruct (p !! k0) as [[| |]|] eqn:E; cbn [fst]; try reflexivity.
    destruct (decide (k0 = k)) as [->|Hne].
    + rewrite lookup_insert_eq, E. split; eauto.
    + rewrite lookup_insert_ne by exact Hne. reflexivity.
  - intros k Hne. destruct n as [k0|l]; [|reflexivity]. unfold set_result.
    destruct (p !! k0) as [[| |]|]; cbn [fst]; try reflexivity.
    apply lookup_insert_ne. congruence.
  - intros k -> Hfree. cbv zeta. cbn [acquire]. rewrite Hfree. cbn [fst].
    unfold set_result. rewrite lookup_insert_eq. cbn [fst remove].
    rewrite lookup_insert_eq, insert_insert_eq, delete_insert_eq, delete_id by exact Hfree.
    rewrite Hfree. repeat split.
Qed.

Lemma set_result_keeps_entries_witness :
  (set_result (NAtom (inl 3)) [1; 2] (acquire (NAtom (inl 3)) ∅).1).1 !! (inl 3 : key)
    = Some (Done [1; 2])
  /\ remove (NAtom (inl 3))
       (set_result (NAtom (inl 3)) [1; 2] (acquire (NAtom (inl 3)) ∅).1).1 = ∅.
Proof.
  destruct (proj2 (proj2 (set_result_keeps_entries (NAtom (inl 3)) [1; 2] ∅))
              (inl 3) eq_refl (lookup_empty _)) as (H1 & H2 & _).
  split; [exact H1 | exact H2].
Defined.

(** ** Subscription: the first candidate that works *)

Lemma start_notify_loop_first_ok (client : nat -> key -> exn + unit)
    (pre post : list key) (cs : key) (i : nat) (exception : option exn) (tried : list key) :
  (forall j c, pre !! j = Some c -> exists e, client (i + j)%nat c = inl e) ->
  client (i + length pre)%nat cs = inr tt ->
  start_notify_loop client (pre ++ cs :: post) i exception tried
    = (tried ++ pre ++ [cs], inr cs).
Proof.
  revert i exception tried. induction pre as [|c pre IH]; intros i exception tried Hfail Hok.
  - cbn [app start_notify_loop length] in *. rewrite Nat.add_0_r in Hok. rewrite Hok.
    reflexivity.
  - cbn [app start_notify_loop].
    destruct (Hfail 0%nat c eq_refl) as [e He]. rewrite Nat.add_0_r in He. rewrite He.
    rewrite (IH (S i) (Some e) (tried ++ [c])).
    + rewrite <- app_assoc. reflexivity.
    + intros j c' Hj. replace (S i + j)%nat with (i + S j)%nat by lia.
      apply Hfail. exact Hj.
    + replace (S i + length pre)%nat with (i + length (c :: pre))%nat by (cbn; lia).
      exact Hok.
Qed.

(** X11. [start_notify] returns the first candidate on which subscribing
    succeeds: the candidates before it have been tried, in order, and
    failed; the candidates after it are not tried. *)
Theorem start_notify_first_match (client : nat -> key -> exn + unit)
    (pre post : list key) (cs : key) :
  (forall j c, pre !! j = Some c -> exists e, client j c = inl e) ->
  client (length pre) cs = inr tt ->
  start_notify client (Several (pre ++ cs :: post)) = (pre ++ [cs], inr cs).
Proof.
  intros Hfail Hok. unfold start_notify. cbn [candidates].
  apply (start_notify_loop_first_ok client pre post cs 0 None []).
  - intros j c Hj. apply Hfail. exact Hj.
  - exact Hok.
Qed.

Lemma start_notify_first_match_witness :
  let client : nat -> key -> exn + unit :=
    fun i _ => if (i <? 1)%nat then inl (TransportError i) else inr tt in
  start_notify client (Several ([inl 10] ++ inl 11 :: [inl 12]))
    = ([inl 10] ++ [inl 11], inr (inl 11)).
Proof.
  cbv zeta. apply start_notify_first_match.
  - intros [|j] c Hj; [eexists; reflexivity | discriminate].
  - reflexivity.
Defined.


(** ** Handles of characteristics *)

Lemma uuid_to_handle_find (services : list (list characteristic)) (uuid property : string) :
  characteristic_uuid_to_handle services uuid property =
    match list_find (fun c => char_uuid c = uuid /\ property ∈ char_properties c)
            (concat services) with
    | Some (_, c) => inl (char_handle c)
    | None => inr uuid
    end.
Proof.
  induction services as [|service services IH]; [reflexivity|].
  cbn [characteristic_uuid_to_handle concat].
  induction service as [|c service IHs]; [exact IH|].
  cbn [app list_find]. rewrite IHs. clear IHs IH.
  destruct (decide (char_uuid c = uuid /\ property ∈ char_properties c)) as [[Hu Hp]|Hn].
  - rewrite (bool_decide_eq_true_2 _ Hu), (bool_decide_eq_true_2 _ Hp). reflexivity.
  - assert (Hb : bool_decide (char_uuid c = uuid)
                 && bool_decide (property ∈ char_properties c) = false).
    { apply andb_false_iff. rewrite !bool_decide_eq_false.
      destruct (decide (char_uuid c = uuid)) as [Hu|Hu]; [right | left; exact Hu].
      intros Hp. apply Hn. split; assumption. }
    rewrite Hb.
    destruct (list_find _ (service ++ concat services)) as [[j c']|]; reflexivity.
Qed.

(** X13. [characteristic_uuid_to_handle] returns the handle of the
    first characteristic, in the order of the services and of their
    characteristics, that has the uuid and the property; it returns the
    uuid itself exactly when there is none. *)
Theorem uuid_to_handle_first_match (services : list (list characteristic))
    (uuid property : string) :
  (forall pre c post,
      concat services = pre ++ c :: post ->
      Forall (fun x => ~ (char_uuid x = uuid /\ property ∈ char_properties x)) pre ->
      char_uuid c = uuid ->
      property ∈ char_properties c ->
      characteristic_uuid_to_handle services uuid property = inl (char_handle c))
  /\ (characteristic_uuid_to_handle services uuid property = inr uuid
      <-> Forall (fun x => ~ (char_uuid x = uuid /\ property ∈ char_properties x))
            (concat services)).
Proof.
  rewrite uuid_to_handle_find. split.
  - intros pre c post Hcat Hpre Hu Hp.
    assert (Hfind : list_find (fun c => char_uuid c = uuid /\ property ∈ char_properties c)
                      (concat services) = Some (length pre, c)).
    { apply list_find_Some. rewrite Hcat. split; [apply list_lookup_middle; reflexivity|].
      split; [tauto|]. intros j y Hy Hj.
      rewrite lookup_app_l in Hy by exact Hj.
      rewrite Forall_forall in Hpre. apply Hpre.
      apply list_elem_of_lookup. eauto. }
    rewrite Hfind. reflexivity.
  - destruct (list_find _ (concat services)) as [[j c]|] eqn:Hfind.
    + split; [discriminate|]. intros Hall. exfalso.
      apply list_find_Some in Hfind as (Hj & Hc & _).
      rewrite Forall_forall in Hall. apply (Hall c); [|exact Hc].
      apply list_elem_of_lookup. eauto.
    + split; [|reflexivity]. intros _. apply list_find_None in Hfind. exact Hfind.
Qed.

Lemma uuid_to_handle_first_match_witness :
  let notify := mkChar "ffe1" ["read"; "notify"]%string 5 in
  let write := mkChar "ffe1" ["write"]%string 7 in
  characteristic_uuid_to_handle [[mkChar "2a00" ["read"]%string 2]; [notify; write]]
    "ffe1" "write" = inl 7.
Proof.
  cbv zeta.
  apply (proj1 (uuid_to_handle_first_match
                  [[mkChar "2a00" ["read"]%string 2];
                   [mkChar "ffe1" ["read"; "notify"]%string 5;
                    mkChar "ffe1" ["write"]%string 7]] "ffe1" "write")
           [mkChar "2a00" ["read"]%string 2; mkChar "ffe1" ["read"; "notify"]%string 5]
           (mkChar "ffe1" ["write"]%string 7) []).
  - reflexivity.
  - apply (bool_decide_unpack _). vm_compute. reflexivity.
  - reflexivity.
  - cbn. left.
Defined.

(** ** Scan-assisted connect: the scanner's scope and the call counts *)



Section ConnectWithScannerCounts.

Variable address : string.
Variable psk : bool.
Variable discovered_devices : nat -> list string.
Variable client_connect : nat -> Q -> exn + unit.
Variable client_pair : nat -> exn + bool.

Local Abbreviation attempt_ :=
  (try_attempt address psk discovered_devices client_connect client_pair).
Local Abbreviation loop :=
  (connect_loop address psk discovered_devices client_connect client_pair).




End ConnectWithScannerCounts.


(** ** What the handler and the disconnect callback do to the pool *)

Lemma finish_fst_futures (r : JKBt * (exn + unit)) :
  _fetch_futures (finish r).1 = _fetch_futures r.1.
Proof. destruct r as [s [e|[]]]; reflexivity. Qed.

Lemma decode_keeps_entries (b : bytes) (s : JKBt) (k : key) :
  is_Some (_fetch_futures (_decode_msg b s).1 !! k) <-> is_Some (_fetch_futures s !! k).
Proof.
  destruct (b !! 4%nat) as [t|] eqn:Ht.
  - rewrite (decode_unfold b t s Ht). destruct s as [buf tbl futs cbs cs]. run_jk.
    destruct (futs !! inl t) as [[| |]|] eqn:E; destruct (cbs !! t); cbn [fst];
      run_jk; try reflexivity.
    all: destruct (decide ((inl t : key) = k)) as [<-|Hne];
      [rewrite lookup_insert_eq, E; split; eauto
      |rewrite lookup_insert_ne by exact Hne; reflexivity].
  - unfold _decode_msg, bind, modify, raise. rewrite Ht. destruct s; reflexivity.
Qed.

Lemma handler_keeps_entries (data : bytes) (s : JKBt) (k : key) :
  is_Some (_fetch_futures (_notification_handler data s).1 !! k)
  <-> is_Some (_fetch_futures s !! k).
Proof.
  rewrite handler_unfold. cbv zeta.
  destruct (MIN_RESPONSE_SIZE <=? length (incoming data s))%nat; [|reflexivity].
  destruct (crc_verdict (incoming data s)) as [[|]|]; [| |reflexivity].
  - rewrite finish_fst_futures, decode_keeps_entries. reflexivity.
  - destruct (index HEADER (incoming data s)) as [idx|]; [|reflexivity].
    destruct (crc_verdict (drop idx (incoming data s))) as [[|]|]; [| reflexivity | reflexivity].
    rewrite finish_fst_futures, decode_keeps_entries. reflexivity.
Qed.

Lemma deliver_keeps_empty (s : JKBt) (ev : event) :
  _fetch_futures s = ∅ -> _fetch_futures (deliver s ev) = ∅.
Proof.
  intros Hs. destruct ev as [data|]; [|reflexivity].
  apply map_eq. intros k. rewrite lookup_empty. apply eq_None_not_Some.
  cbn [deliver]. rewrite handler_keeps_entries, Hs, lookup_empty.
  intros [? ?]; discriminate.
Qed.

Lemma foldl_deliver_keeps_empty (evs : list event) (s : JKBt) :
  _fetch_futures s = ∅ -> _fetch_futures (foldl deliver s evs) = ∅.
Proof.
  revert s. induction evs as [|ev evs IH]; intros s Hs; [exact Hs|].
  cbn [foldl]. apply IH, deliver_keeps_empty, Hs.
Qed.

Lemma disconnect_empties (evs : list event) (s : JKBt) :
  Disconnected ∈ evs -> _fetch_futures (foldl deliver s evs) = ∅.
Proof.
  intros Hin. apply list_elem_of_split in Hin as (l1 & l2 & ->).
  rewrite foldl_app. cbn [foldl]. apply foldl_deliver_keeps_empty. reflexivity.
Qed.

Lemma foldl_deliver_feed (ds : list bytes) (s : JKBt) :
  foldl deliver s (Notification <$> ds) = (feed ds s).1.
Proof.
  revert s. induction ds as [|d ds IH]; intros s; [reflexivity|].
  cbn [fmap list_fmap foldl feed deliver]. rewrite IH.
  destruct (_notification_handler d s) as [s' r]. cbn [fst].
  destruct (feed ds s'); reflexivity.
Qed.

Lemma feed_keeps_entries (ds : list bytes) (s : JKBt) (k : key) :
  is_Some (_fetch_futures (feed ds s).1 !! k) <-> is_Some (_fetch_futures s !! k).
Proof.
  revert s. induction ds as [|d ds IH]; intros s; [reflexivity|].
  cbn [feed]. pose proof (handler_keeps_entries d s k) as Hh.
  destruct (_notification_handler d s) as [s' r]. cbn [fst] in Hh.
  specialize (IH s'). destruct (feed ds s'). cbn [fst] in *. rewrite IH. exact Hh.
Qed.

Lemma watch_notifications (k : key) (ds : list bytes) (s : JKBt) (f : future) :
  _fetch_futures s !! k = Some f ->
  exists f',
    foldl (watch k) (s, f) (Notification <$> ds) = ((feed ds s).1, f')
    /\ _fetch_futures (feed ds s).1 !! k = Some f'.
Proof.
  revert s f. induction ds as [|d ds IH]; intros s f Hf.
  - exists f. split; [reflexivity | exact Hf].
  - cbn [fmap list_fmap foldl watch fst snd feed].
    destruct (proj2 (handler_keeps_entries d s k) (ex_intro _ f Hf)) as [f1 Hf1].
    rewrite Hf1. destruct (IH _ f1 Hf1) as (f' & Hrun & Hlook).
    exists f'. rewrite Hrun.
    destruct (_notification_handler d s) as [s' r]. cbn [fst] in *.
    destruct (feed ds s'). split; [reflexivity | exact Hlook].
Qed.

Lemma watch_after_disconnect (k : key) (evs : list event) (s : JKBt) :
  _fetch_futures s = ∅ ->
  exists s', foldl (watch k) (s, Cancelled) evs = (s', Cancelled) /\ _fetch_futures s' = ∅.
Proof.
  revert s. induction evs as [|ev evs IH]; intros s Hs; [eauto|].
  cbn [foldl]. pose proof (deliver_keeps_empty s ev Hs) as He.
  destruct ev as [data|]; cbn [watch fst snd deliver] in *.
  - rewrite He, lookup_empty. apply IH. exact He.
  - apply IH. exact He.
Qed.

(** ** The request/response cycle *)

(** X15. If the response type has no entry when [_q] is called, it has
    none when [_q] ends, however it ends and whatever happens meanwhile.
    If it has one, [_q] raises the assertion at once: nothing is written
    and the session is unchanged, the entry of the first request stays. *)
Theorem q_releases_name (cmd resp : Z) (while_writing : list event) (written : exn + unit)
    (while_waiting : list event) (s : JKBt) :
  (_fetch_futures s !! (inl resp : key) = None ->
   _fetch_futures (_q cmd resp while_writing written while_waiting s).1.1
     !! (inl resp : key) = None)
  /\ (is_Some (_fetch_futures s !! (inl resp : key)) ->
      _q cmd resp while_writing written while_waiting s
        = (s, [], inl (Raised (AssertionError (AlreadyWaitingFor (inl resp)))))).
Proof.
  unfold _q. cbn [acquire]. split.
  - intros ->. cbv zeta.
    destruct (_jk_command cmd []) as [e|frame];
      [cbn [fst _fetch_futures set_fetch_futures remove]; apply lookup_delete_eq|].
    destruct written as [e|u];
      [cbn [fst _fetch_futures set_fetch_futures remove]; apply lookup_delete_eq|].
    destruct (wait_for _ _ _) as [s' r].
    cbn [fst _fetch_futures set_fetch_futures remove]. apply lookup_delete_eq.
  - intros [f ->]. destruct s; reflexivity.
Qed.

Lemma q_releases_name_witness :
  _fetch_futures (_q 151 3 [] (inr tt) [Notification sample_message] new_JKBt).1.1
    !! (inl 3 : key) = None
  /\ _q 151 3 [] (inr tt) [] (set_fetch_futures {[ (inl 3 : key) := Pending ]} new_JKBt)
     = (set_fetch_futures {[ (inl 3 : key) := Pending ]} new_JKBt, [],
        inl (Raised (AssertionError (AlreadyWaitingFor (inl 3))))).
Proof.
  split.
  - apply (proj1 (q_releases_name 151 3 [] (inr tt) [Notification sample_message] new_JKBt)).
    reflexivity.
  - apply (proj2 (q_releases_name 151 3 [] (inr tt) []
                    (set_fetch_futures {[ (inl 3 : key) := Pending ]} new_JKBt))).
    exists Pending. vm_compute. reflexivity.
Defined.

(** X16. A disconnect that happens while the frame is being written
    empties the pool before [wait_for] looks its future up: if the write
    itself returns, [_q] raises [TypeError], not a cancellation. *)
Theorem q_disconnect_while_writing (cmd resp : Z) (while_writing while_waiting : list event)
    (s : JKBt) :
  is_byte cmd = true ->
  _fetch_futures s !! (inl resp : key) = None ->
  Disconnected ∈ while_writing ->
  (_q cmd resp while_writing (inr tt) while_waiting s).2 = inl (Raised TypeError)
  /\ _fetch_futures (_q cmd resp while_writing (inr tt) while_waiting s).1.1 = ∅.
Proof.
  intros Hcmd Hfree Hdis. unfold _q. cbn [acquire]. rewrite Hfree. cbv zeta.
  destruct (jk_command_ok cmd [] Hcmd eq_refl) as [Hframe _]; [cbn; lia|].
  rewrite Hframe. cbv beta iota.
  unfold wait_for.
  match goal with |- context [foldl deliver ?x while_writing] =>
    pose proof (disconnect_empties while_writing x Hdis) as He
  end. rewrite He, lookup_empty.
  cbn [fst snd _fetch_futures set_fetch_futures remove].
  split; [reflexivity | rewrite !delete_empty; reflexivity].
Qed.

Lemma q_disconnect_while_writing_witness :
  (_q 151 3 [Disconnected] (inr tt) [Notification sample_message] new_JKBt).2
    = inl (Raised TypeError).
Proof.
  apply (q_disconnect_while_writing 151 3 [Disconnected] [Notification sample_message]
           new_JKBt).
  - reflexivity.
  - reflexivity.
  - left.
Defined.

Lemma handler_incoming_pending (data msg : bytes) (t : Z) (s : JKBt) :
  incoming data s = msg ->
  valid_message msg ->
  msg !! 4%nat = Some t ->
  _fetch_futures s !! (inl t : key) = Some Pending ->
  _fetch_futures (_notification_handler data s).1 = <[inl t := Done msg]> (_fetch_futures s)
  /\ _resp_table (_notification_handler data s).1 = <[t := msg]> (_resp_table s)
  /\ _buffer (_notification_handler data s).1 = [].
Proof.
  intros Hinc Hv Ht Hpend.
  rewrite (handler_valid data msg s Hinc Hv), (decode_unfold msg t _ Ht).
  destruct s as [buf tbl futs cbs cs]. unfold checked. cbv zeta. run_jk.
  cbn [_fetch_futures] in Hpend. rewrite Hpend.
  destruct (cbs !! t); repeat split.
Qed.

Lemma feed_chunks_last (msg : bytes) (pre : list bytes) (c : bytes) (s : JKBt) :
  concat (pre ++ [c]) = msg ->
  Forall (fun d => take 4 d <> HEADER) (tail (pre ++ [c])) ->
  (length (concat pre) < MIN_RESPONSE_SIZE)%nat ->
  _buffer s = [] ->
  (feed (pre ++ [c]) s).1 = (_notification_handler c (set_buffer (concat pre) s)).1
  /\ incoming c (set_buffer (concat pre) s) = msg.
Proof.
  intros Hcat Htl Hlen Hb.
  rewrite concat_app in Hcat. cbn [concat] in Hcat. rewrite app_nil_r in Hcat.
  rewrite feed_app. cbn [fst snd feed].
  assert (Hpre : feed pre s = (set_buffer (concat pre) s, replicate (length pre) (inr tt))).
  { apply feed_prefix; [exact Hb | | exact Hlen].
    destruct pre as [|d pre]; [constructor|].
    cbn [tail app] in Htl |- *. apply Forall_app in Htl. tauto. }
  rewrite Hpre. cbn [fst]. split.
  - destruct (_notification_handler c (set_buffer (concat pre) s)); reflexivity.
  - rewrite <- Hcat. destruct pre as [|d pre].
    + rewrite incoming_append by (intros; reflexivity). reflexivity.
    + cbn [tail app] in Htl. apply Forall_app in Htl as [_ Hc].
      inversion Hc; subst. rewrite incoming_append by (intros; contradiction).
      reflexivity.
Qed.

(** X17. The request answered: when the response type is free, the
    buffer empty, the write succeeds and what arrives during the write and
    the wait is exactly one valid message of that type, in chunks of which
    none but the first begins with the header and all but the last total
    fewer than 300 bytes, [_q] writes the one frame of the command,
    returns the message, leaves it in the response table and leaves the
    pool and the buffer as they were. *)
Theorem q_returns_response (cmd resp : Z) (msg : bytes) (pre : list bytes) (c : bytes)
    (while_writing while_waiting : list event) (s : JKBt) :
  is_byte cmd = true ->
  _fetch_futures s !! (inl resp : key) = None ->
  _buffer s = [] ->
  valid_message msg ->
  msg !! 4%nat = Some resp ->
  concat (pre ++ [c]) = msg ->
  Forall (fun d => take 4 d <> HEADER) (tail (pre ++ [c])) ->
  (length (concat pre) < MIN_RESPONSE_SIZE)%nat ->
  while_writing ++ while_waiting = Notification <$> (pre ++ [c]) ->
  exists frame,
    _jk_command cmd [] = inr frame
    /\ (_q cmd resp while_writing (inr tt) while_waiting s).2 = inr msg
    /\ (_q cmd resp while_writing (inr tt) while_waiting s).1.2 = [frame]
    /\ _resp_table (_q cmd resp while_writing (inr tt) while_waiting s).1.1
       = <[resp := msg]> (_resp_table s)
    /\ _fetch_futures (_q cmd resp while_writing (inr tt) while_waiting s).1.1
       = _fetch_futures s
    /\ _buffer (_q cmd resp while_writing (inr tt) while_waiting s).1.1 = [].
Proof.
  intros Hcmd Hfree Hb Hv Ht Hcat Htl Hlen Hev.
  destruct (jk_command_ok cmd [] Hcmd eq_refl) as [Hframe _]; [cbn; lia|].
  eexists. split; [exact Hframe|].
  symmetry in Hev. apply fmap_app_inv in Hev as (ds1 & ds2 & -> & -> & Hds).
  unfold _q. cbn [acquire]. rewrite Hfree, Hframe. cbv beta iota zeta.
  set (s0 := set_fetch_futures (<[inl resp:=Pending]> (_fetch_futures s)) s).
  assert (Hpend : _fetch_futures s0 !! (inl resp : key) = Some Pending)
    by apply lookup_insert_eq.
  rewrite foldl_deliver_feed. unfold wait_for.
  destruct (proj2 (feed_keeps_entries ds1 s0 (inl resp)) (ex_intro _ _ Hpend)) as [f Hf].
  rewrite Hf.
  destruct (watch_notifications (inl resp) ds2 _ f Hf) as (f' & Hrun & Hlook).
  rewrite Hrun.
  assert (Hall : (feed ds2 (feed ds1 s0).1).1 = (feed (pre ++ [c]) s0).1).
  { rewrite Hds, feed_app. reflexivity. }
  rewrite Hall in Hlook |- *.
  destruct (feed_chunks_last msg pre c s0 Hcat Htl Hlen Hb) as [Hlast Hinc].
  destruct (handler_incoming_pending c msg resp (set_buffer (concat pre) s0)
              Hinc Hv Ht Hpend) as (Hfut & Htbl & Hbuf).
  rewrite Hlast in Hlook |- *. rewrite Hfut, lookup_insert_eq in Hlook.
  injection Hlook as <-.
  cbn [fst snd _fetch_futures _resp_table _buffer set_fetch_futures remove].
  rewrite Hfut, Htbl, Hbuf.
  split; [reflexivity|]. split; [reflexivity|]. split; [reflexivity|].
  split; [|reflexivity].
  cbn [_fetch_futures set_buffer s0 set_fetch_futures].
  rewrite !delete_insert_eq. repeat rewrite (delete_id _ _ Hfree). reflexivity.
Qed.

Lemma q_returns_response_witness :
  (_q 151 3 [] (inr tt)
     [Notification (take 150 sample_message); Notification (drop 150 sample_message)]
     new_JKBt).2 = inr sample_message.
Proof.
  destruct (q_returns_response 151 3 sample_message [take 150 sample_message]
              (drop 150 sample_message) []
              [Notification (take 150 sample_message);
               Notification (drop 150 sample_message)] new_JKBt)
    as (frame & _ & Hr & _).
  - reflexivity.
  - reflexivity.
  - reflexivity.
  - exact sample_message_valid.
  - reflexivity.
  - vm_compute. reflexivity.
  - constructor; [vm_compute; discriminate | constructor].
  - apply Nat.ltb_lt. vm_compute. reflexivity.
  - reflexivity.
  - exact Hr.
Defined.

Lemma q_quiet_phase (resp : Z) (ds1 ds2 : list bytes) (s0 : JKBt) :
  _fetch_futures s0 !! (inl resp : key) = Some Pending ->
  (length (_buffer s0) + length (concat (ds1 ++ ds2)) < MIN_RESPONSE_SIZE)%nat ->
  exists b,
    foldl (watch (inl resp)) (foldl deliver s0 (Notification <$> ds1), Pending)
      (Notification <$> ds2) = (set_buffer b s0, Pending)
    /\ _fetch_futures (foldl deliver s0 (Notification <$> ds1)) !! (inl resp : key)
       = Some Pending.
Proof.
  intros Hpend Hlen. rewrite concat_app, length_app in Hlen.
  rewrite foldl_deliver_feed.
  destruct (feed_below ds1 s0) as (b1 & Hfeed1 & Hb1 & _); [lia|].
  rewrite Hfeed1. cbn [fst].
  destruct (feed_below ds2 (set_buffer b1 s0)) as (b2 & Hfeed2 & _);
    [cbn [_buffer set_buffer]; lia|].
  destruct (watch_notifications (inl resp) ds2 (set_buffer b1 s0) Pending Hpend)
    as (f' & Hrun & Hlook).
  rewrite Hfeed2 in Hrun, Hlook. cbn [fst _fetch_futures set_buffer] in Hlook.
  assert (f' = Pending) as -> by congruence.
  exists b2. split; [exact Hrun | exact Hpend].
Qed.

(** X18. The request unanswered: when the response type is free, the
    write succeeds and all that arrives during the write and the wait
    are fragments that, with the buffer, stay below 300 bytes, [_q]
    raises [TimeoutError]; the pool and the response table are as before
    and nothing has been accepted. *)
Theorem q_times_out (cmd resp : Z) (ds1 ds2 : list bytes) (s : JKBt) :
  is_byte cmd = true ->
  _fetch_futures s !! (inl resp : key) = None ->
  (length (_buffer s) + length (concat (ds1 ++ ds2)) < MIN_RESPONSE_SIZE)%nat ->
  (_q cmd resp (Notification <$> ds1) (inr tt) (Notification <$> ds2) s).2
    = inl TimeoutError
  /\ _fetch_futures (_q cmd resp (Notification <$> ds1) (inr tt) (Notification <$> ds2) s).1.1
     = _fetch_futures s
  /\ _resp_table (_q cmd resp (Notification <$> ds1) (inr tt) (Notification <$> ds2) s).1.1
     = _resp_table s
  /\ calls (_q cmd resp (Notification <$> ds1) (inr tt) (Notification <$> ds2) s).1.1
     = calls s.
Proof.
  intros Hcmd Hfree Hlen.
  destruct (jk_command_ok cmd [] Hcmd eq_refl) as [Hframe _]; [cbn; lia|].
  unfold _q. cbn [acquire]. rewrite Hfree, Hframe. cbv beta iota zeta.
  set (s0 := set_fetch_futures (<[inl resp:=Pending]> (_fetch_futures s)) s).
  assert (Hpend : _fetch_futures s0 !! (inl resp : key) = Some Pending)
    by apply lookup_insert_eq.
  destruct (q_quiet_phase resp ds1 ds2 s0 Hpend Hlen) as (b & Hrun & Hlook).
  unfold wait_for. rewrite Hlook, Hrun.
  cbn [fst snd _fetch_futures _resp_table calls set_fetch_futures set_buffer remove s0].
  rewrite !delete_insert_eq. repeat rewrite (delete_id _ _ Hfree). repeat split.
Qed.

Lemma q_times_out_witness :
  (_q 151 3 (Notification <$> []) (inr tt) (Notification <$> [[1; 2; 3]]) new_JKBt).2
    = inl TimeoutError.
Proof.
  apply (q_times_out 151 3 [] [[1; 2; 3]] new_JKBt).
  - reflexivity.
  - reflexivity.
  - apply Nat.ltb_lt. vm_compute. reflexivity.
Defined.

(** X19. The link lost during the wait: when the response type is
    free, the write succeeds and a disconnect comes before 300 bytes have
    accumulated, [_q] raises [CancelledError] whatever arrives after the
    disconnect, and the pool is empty afterwards. *)
Theorem q_cancelled_by_disconnect (cmd resp : Z) (ds1 ds2 : list bytes) (rest : list event)
    (s : JKBt) :
  is_byte cmd = true ->
  _fetch_futures s !! (inl resp : key) = None ->
  (length (_buffer s) + length (concat (ds1 ++ ds2)) < MIN_RESPONSE_SIZE)%nat ->
  (_q cmd resp (Notification <$> ds1) (inr tt)
     ((Notification <$> ds2) ++ Disconnected :: rest) s).2 = inl CancelledError
  /\ _fetch_futures (_q cmd resp (Notification <$> ds1) (inr tt)
                       ((Notification <$> ds2) ++ Disconnected :: rest) s).1.1 = ∅.
Proof.
  intros Hcmd Hfree Hlen.
  destruct (jk_command_ok cmd [] Hcmd eq_refl) as [Hframe _]; [cbn; lia|].
  unfold _q. cbn [acquire]. rewrite Hfree, Hframe. cbv beta iota zeta.
  set (s0 := set_fetch_futures (<[inl resp:=Pending]> (_fetch_futures s)) s).
  assert (Hpend : _fetch_futures s0 !! (inl resp : key) = Some Pending)
    by apply lookup_insert_eq.
  destruct (q_quiet_phase resp ds1 ds2 s0 Hpend Hlen) as (b & Hrun & Hlook).
  unfold wait_for. rewrite Hlook, foldl_app, Hrun. cbn [foldl watch fst snd cancel].
  destruct (watch_after_disconnect (inl resp) rest (_on_disconnect (set_buffer b s0)))
    as (s' & Hrest & Hempty); [reflexivity|].
  rewrite Hrest. cbn [fst snd _fetch_futures set_fetch_futures remove].
  rewrite Hempty, !delete_empty. split; reflexivity.
Qed.

Lemma q_cancelled_by_disconnect_witness :
  (_q 151 3 (Notification <$> []) (inr tt)
     ((Notification <$> [[85; 170]]) ++ Disconnected :: [Notification sample_message])
     new_JKBt).2 = inl CancelledError.
Proof.
  apply (q_cancelled_by_disconnect 151 3 [] [[85; 170]] [Notification sample_message]
           new_JKBt).
  - reflexivity.
  - reflexivity.
  - apply Nat.ltb_lt. vm_compute. reflexivity.
Defined.

(** ** Device info *)



Lemma fetch_fields_layout (buf : bytes) :
  fetch_fields structure buf [] =
    (fun f => (f.1.1, rstrip_zeros (take f.2 (drop f.1.2 buf)))) <$> field_layout.
Proof.
  unfold structure. cbn -[take drop rstrip_zeros]. rewrite !drop_drop. reflexivity.
Qed.

(** X20. [fetch_device_info] raises [KeyError] when no message of type
    3 has been stored. Otherwise it prints nine fields, in this order:
    model, hw, sf, device_name, device_passcode, manufactured, sn,
    passcode, setup_passcode, each the bytes of the stored message at a
    fixed offset (6, 22, 30, 46, 62, 78, 86, 97, 118) and of a fixed
    length, without the trailing zero bytes; a message too short for a
    field yields a shorter or empty value, not an error. *)
Theorem fetch_device_info_fields (s : JKBt) :
  (_resp_table s !! 3 = None -> fetch_device_info s = inl (KeyError 3))
  /\ (forall buf,
        _resp_table s !! 3 = Some buf ->
        fetch_device_info s =
          inr ((fun f => (f.1.1, rstrip_zeros (take f.2 (drop f.1.2 buf))))
                 <$> field_layout)).
Proof.
  unfold fetch_device_info. split.
  - intros ->. reflexivity.
  - intros buf ->. rewrite fetch_fields_layout. reflexivity.
Qed.

Lemma fetch_device_info_fields_witness :
  fetch_device_info new_JKBt = inl (KeyError 3)
  /\ fetch_device_info (set_resp_table {[ 3 := [85; 170; 235; 144; 3; 0; 74; 75; 0] ]} new_JKBt)
     = inr [("model", [74; 75]); ("hw", []); ("sf", []); ("device_name", []);
            ("device_passcode", []); ("manufactured", []); ("sn", []);
            ("passcode", []); ("setup_passcode", [])]%string.
Proof.
  split.
  - apply (proj1 (fetch_device_info_fields new_JKBt)). reflexivity.
  - apply (proj2 (fetch_device_info_fields
                    (set_resp_table {[ 3 := [85; 170; 235; 144; 3; 0; 74; 75; 0] ]}
                       new_JKBt))
             [85; 170; 235; 144; 3; 0; 74; 75; 0]).
    reflexivity.
Defined.



(** ** Zero-terminated strings *)





(** ** What gets accepted *)

Lemma crc_verdict_true (b : bytes) :
  crc_verdict b = Some true -> (MIN_RESPONSE_SIZE <= length b)%nat /\ checksum_ok b.
Proof.
  intros Hv. split; [exact (crc_verdict_Some_length _ _ Hv)|].
  unfold crc_verdict, checksum_ok in *.
  destruct (b !! 299%nat) as [e|]; [|discriminate].
  injection Hv as Hv. apply Z.eqb_eq in Hv. rewrite <- calc_crc_mod, Hv. reflexivity.
Qed.

Lemma handler_accepts_checked (data : bytes) (s : JKBt) :
  exists l,
    accepted (calls (_notification_handler data s).1) = accepted (calls s) ++ l
    /\ (length l <= 1)%nat
    /\ Forall (fun b => (MIN_RESPONSE_SIZE <= length b)%nat /\ checksum_ok b) l.
Proof.
  assert (Hdec : forall b s0, crc_verdict b = Some true ->
            accepted (calls s0) = accepted (calls s) ->
            exists l,
              accepted (calls (finish (_decode_msg b s0)).1) = accepted (calls s) ++ l
              /\ (length l <= 1)%nat
              /\ Forall (fun b => (MIN_RESPONSE_SIZE <= length b)%nat /\ checksum_ok b) l).
  { intros b s0 Hv Hs0. pose proof (crc_verdict_true b Hv) as Hb.
    destruct (long_has_type b (proj1 Hb)) as [t Ht].
    destruct (decode_effects b t s0 Ht) as (Hacc & _).
    exists [b]. rewrite finish_fst_calls, Hacc, Hs0.
    split; [reflexivity|]. split; [cbn; lia|]. constructor; [exact Hb | constructor]. }
  assert (Hnone : forall s0, accepted (calls s0) = accepted (calls s) ->
            exists l, accepted (calls s0) = accepted (calls s) ++ l
              /\ (length l <= 1)%nat
              /\ Forall (fun b => (MIN_RESPONSE_SIZE <= length b)%nat /\ checksum_ok b) l).
  { intros s0 Hs0. exists []. rewrite app_nil_r.
    split; [exact Hs0|]. split; [cbn; lia | constructor]. }
  rewrite handler_unfold. cbv zeta.
  destruct (MIN_RESPONSE_SIZE <=? length (incoming data s))%nat;
    [|apply Hnone; reflexivity].
  destruct (crc_verdict (incoming data s)) as [[|]|] eqn:Hv.
  - apply Hdec; [exact Hv | apply accepted_checked].
  - destruct (index HEADER (incoming data s)) as [idx|].
    2:{ apply Hnone. cbn [fst]. change (calls (set_buffer [] ?x)) with (calls x).
        apply accepted_checked. }
    destruct (crc_verdict (drop idx (incoming data s))) as [[|]|] eqn:Hv2.
    + apply Hdec; [exact Hv2 | rewrite !accepted_checked; reflexivity].
    + apply Hnone. cbn [fst]. change (calls (set_buffer [] ?x)) with (calls x).
      rewrite !accepted_checked. reflexivity.
    + apply Hnone. cbn [fst]. rewrite !accepted_checked. reflexivity.
  - apply Hnone. cbn [fst]. apply accepted_checked.
Qed.

(** X23. Whatever fragments arrive and whatever the session holds, every
    buffer handed to [_decode_msg] has at least 300 bytes and a valid
    checksum, and no call of the handler accepts more than one message.
    (The magic header is not required: it is looked for only after a
    failed checksum.) *)
Theorem feed_accepts_only_checked (fragments : list bytes) (s : JKBt) :
  exists l,
    accepted (calls (feed fragments s).1) = accepted (calls s) ++ l
    /\ (length l <= length fragments)%nat
    /\ Forall (fun b => (MIN_RESPONSE_SIZE <= length b)%nat /\ checksum_ok b) l.
Proof.
  revert s. induction fragments as [|d ds IH]; intros s.
  - exists []. cbn. rewrite app_nil_r. split; [reflexivity|]. split; [lia | constructor].
  - cbn [feed]. destruct (handler_accepts_checked d s) as (l1 & Hacc1 & Hlen1 & Hall1).
    destruct (_notification_handler d s) as [s1 r1]. cbn [fst] in Hacc1.
    destruct (IH s1) as (l2 & Hacc2 & Hlen2 & Hall2).
    destruct (feed ds s1) as [s2 rs]. cbn [fst] in *.
    exists (l1 ++ l2). rewrite Hacc2, Hacc1, <- app_assoc.
    split; [reflexivity|]. split; [rewrite length_app; cbn; lia|].
    apply Forall_app. split; assumption.
Qed.

(** ** After an exception of the correlator *)

Lemma valid_message_app (msg d : bytes) : valid_message msg -> valid_message (msg ++ d).
Proof.
  unfold valid_message, checksum_ok, MIN_RESPONSE_SIZE.
  intros (Hhd & Hlen & Hcrc). split; [|split].
  - rewrite take_app_le by lia. exact Hhd.
  - rewrite length_app. lia.
  - rewrite lookup_app_l by lia. rewrite take_app_le by lia. exact Hcrc.
Qed.

(** X24. When a valid message meets an already completed future, the
    handler raises and keeps the message in its buffer; the next fragment
    that does not begin with the header is appended to it, and message
    plus fragment are handed to [_decode_msg] and stored in the response
    table as one message. As long as the completed future stays, that
    call raises as well. *)
Theorem stale_message_is_decoded_again (msg d v0 : bytes) (t : Z) (s : JKBt) :
  valid_message msg ->
  msg !! 4%nat = Some t ->
  _fetch_futures s !! (inl t : key) = Some (Done v0) ->
  take 4 d <> HEADER ->
  accepted (calls (feed [msg; d] s).1) = accepted (calls s) ++ [msg; msg ++ d]
  /\ (feed [msg; d] s).2 = [inl InvalidStateError; inl InvalidStateError]
  /\ _resp_table (feed [msg; d] s).1 !! t = Some (msg ++ d).
Proof.
  intros Hv Ht Hdone Hd.
  destruct (handler_valid_done msg v0 t s Hv Ht Hdone) as (Hr1 & Hf1 & Hb1).
  pose proof (handler_valid_accepted msg msg s (incoming_header msg s (proj1 Hv)) Hv) as Ha1.
  cbn [feed]. destruct (_notification_handler msg s) as [s1 r1]. cbn [fst snd] in *.
  assert (Hinc : incoming d s1 = msg ++ d).
  { rewrite incoming_append by (intros; contradiction). rewrite Hb1. reflexivity. }
  pose proof (valid_message_app msg d Hv) as Hv2.
  assert (Ht2 : (msg ++ d) !! 4%nat = Some t).
  { rewrite lookup_app_l; [exact Ht|]. apply lookup_lt_Some in Ht. exact Ht. }
  pose proof (handler_valid_accepted d (msg ++ d) s1 Hinc Hv2) as Ha2.
  pose proof (handler_valid d (msg ++ d) s1 Hinc Hv2) as Hrun.
  destruct (decode_effects (msg ++ d) t (checked (msg ++ d) (Some true) s1) Ht2)
    as (_ & _ & _ & Htbl & _ & Hraise).
  destruct (Hraise v0) as [Hr2 _].
  { cbn [_fetch_futures checked record set_buffer]. rewrite Hf1. exact Hdone. }
  rewrite (finish_raise _ _ Hr2) in Hrun.
  destruct (_notification_handler d s1) as [s2 r2]. cbn [fst snd] in *.
  rewrite Ha2, Ha1, <- app_assoc. split; [reflexivity|].
  rewrite <- Hrun in Hr2, Htbl. cbn [fst snd] in Hr2, Htbl. subst r1 r2.
  split; [reflexivity|]. rewrite Htbl. apply lookup_insert_eq.
Qed.

Lemma stale_message_is_decoded_again_witness :
  let s := set_fetch_futures {[ (inl 3 : key) := Done [1] ]} new_JKBt in
  accepted (calls (feed [sample_message; []] s).1)
    = accepted (calls s) ++ [sample_message; sample_message ++ []].
Proof.
  cbv zeta.
  apply (stale_message_is_decoded_again sample_message [] [1] 3).
  - exact sample_message_valid.
  - reflexivity.
  - vm_compute. reflexivity.
  - discriminate.
Defined.
